(** * BENXI relay server: a model of the HTTP handlers and their stores

    The development follows the server's route handlers
    (api/auth, api/messages, api/keys), the PostgreSQL schema of
    db/init.sql, the Redis calls the handlers make, the order in which
    index.js loads and connects the modules, and [broadcastToAccount] of
    websocket/relay.

    - A table is the list of its rows in insertion order; every statement
      a handler sends through [query] is a function on the database that
      either fails with a PostgreSQL error or returns its result, and is
      committed on its own (the handlers use [pool.query], one statement
      per call).
    - Redis is a finite map from keys to a value with its expiry instant;
      a handler reaches it through the client its module holds, which is
      [undefined] when the module read it before [connectRedis] ran.
    - The relay's [connections] map an account to its sockets.
    - Values the server draws from outside (the clock, [gen_random_uuid()],
      [crypto.randomBytes], [uuidv4]) are inputs of the handler that uses
      them.
    - Request bodies are typed as the route comments document them: a field
      is absent ([None]) or holds a value of the documented type; account and
      message identifiers are UUIDs, read as 128-bit numbers in PostgreSQL's
      comparison order.
    - The statements of a handler run with no statement of another
      request committed in between; what overlapping requests leave
      visible is the set of [one_time_prekeys] rows their statements in
      flight hold locked, an input of the fetch handler, whose DELETE
      skips locked rows. Time is in milliseconds. *)

From Stdlib Require Import ZArith Lia String Ascii.
From Stdlib Require Strings.Byte.
From stdpp Require Import base option list sorting gmap strings.

Local Open Scope Z_scope.

(** ** Bytes and hexadecimal text *)

Abbreviation byte := Byte.byte.
Definition bytes := list byte.

#[global] Instance byte_eq_dec : EqDecision byte := Byte.byte_eq_dec.

(** Value of one hexadecimal digit, either case; [None] for any other
    character. *)
Definition unhex (c : ascii) : option N :=
  let n := N_of_ascii c in
  if ((48 <=? n) && (n <=? 57))%N then Some (n - 48)%N
  else if ((97 <=? n) && (n <=? 102))%N then Some (n - 87)%N
  else if ((65 <=? n) && (n <=? 70))%N then Some (n - 55)%N
  else None.

Definition byte_of_nibbles (h l : N) : byte :=
  default Byte.x00 (Byte.of_N (16 * h + l)).

(** [Buffer.from(s, 'hex')]: pairs of digits are decoded from the left, the
    result stops at the first pair that is not two hexadecimal digits, and a
    trailing single character is dropped. *)
Fixpoint hex_decode (s : string) : bytes :=
  match s with
  | String a (String b rest) =>
      match unhex a, unhex b with
      | Some h, Some l => byte_of_nibbles h l :: hex_decode rest
      | _, _ => []
      end
  | _ => []
  end.

Definition hex_digit (n : N) : ascii :=
  ascii_of_N (if (n <? 10)%N then 48 + n else 87 + n)%N.

(** [buf.toString('hex')]: two lowercase digits per byte. *)
Fixpoint hex_encode (bs : bytes) : string :=
  match bs with
  | [] => EmptyString
  | b :: rest =>
      String (hex_digit (Byte.to_N b / 16))
        (String (hex_digit (Byte.to_N b mod 16)) (hex_encode rest))
  end.

(** JavaScript truthiness of the values a body field can hold. *)
Definition truthy_string (s : option string) : bool :=
  match s with
  | Some (String _ _) => true
  | _ => false
  end.

Definition truthy_number (n : option Z) : bool :=
  match n with
  | Some n => negb (n =? 0)
  | None => false
  end.

(** ** The PostgreSQL schema (db/init.sql) *)

Definition uuid := Z.

Record account_row := {
  acc_id : uuid;
  acc_public_key : bytes;
  acc_registration_id : Z;
  acc_created_at : Z }.

Record signed_prekey_row := {
  spk_id : Z;
  spk_account_id : uuid;
  spk_key_id : Z;
  spk_public_key : bytes;
  spk_signature : bytes;
  spk_created_at : Z }.

Record one_time_prekey_row := {
  otpk_id : Z;
  otpk_account_id : uuid;
  otpk_key_id : Z;
  otpk_public_key : bytes }.

(** The columns of [message_queue]: there is no sender column. *)
Record message_queue_row := {
  mq_id : uuid;
  mq_recipient_id : uuid;
  mq_ciphertext : bytes;
  mq_message_type : Z;
  mq_expires_at : Z }.

(** The two [SERIAL] columns draw from a sequence each; the field holds the
    value the next [nextval] returns. *)
Record db := {
  accounts : list account_row;
  signed_prekeys : list signed_prekey_row;
  signed_prekeys_id_seq : Z;
  one_time_prekeys : list one_time_prekey_row;
  one_time_prekeys_id_seq : Z;
  message_queue : list message_queue_row }.

Definition empty_db : db :=
  {| accounts := []; signed_prekeys := []; signed_prekeys_id_seq := 1;
     one_time_prekeys := []; one_time_prekeys_id_seq := 1;
     message_queue := [] |}.

(** Errors a statement of the handlers can raise, with their SQLSTATE. *)
Inductive pg_error :=
| unique_violation
| foreign_key_violation
| numeric_value_out_of_range.

Definition pg_code (e : pg_error) : string :=
  match e with
  | unique_violation => "23505"
  | foreign_key_violation => "23503"
  | numeric_value_out_of_range => "22003"
  end.

#[global] Instance pg_error_eq_dec : EqDecision pg_error.
Proof. solve_decision. Defined.

(** Ranges of the [INTEGER] and [SMALLINT] column types. *)
Definition in_int4 (n : Z) : Prop := -2147483648 <= n <= 2147483647.
Definition in_int2 (n : Z) : Prop := -32768 <= n <= 32767.

#[global] Instance in_int4_dec n : Decision (in_int4 n).
Proof. unfold in_int4. apply _. Defined.
#[global] Instance in_int2_dec n : Decision (in_int2 n).
Proof. unfold in_int2. apply _. Defined.

(** ** Statements

    [query A] is one call of [query(text, params)]: it runs on the database
    and yields an error or a result together with the database it leaves.
    A failed statement leaves the tables as they were; a sequence value it
    drew stays drawn. *)
Definition query (A : Type) : Type := db → (pg_error + A) * db.

Definition ret {A} (a : A) : query A := λ d, (inr a, d).

Definition bind {A B} (m : query A) (k : A → query B) : query B :=
  λ d, match m d with
       | (inl e, d') => (inl e, d')
       | (inr a, d') => k a d'
       end.

Notation "'await' x ← m ;; k" := (bind m (λ x, k))
  (at level 10, x name, m at level 99, k at level 200,
   format "'[v' 'await'  x  ←  m  ;; '/' k ']'").

(** [for (const x of xs) await f(x)] *)
Fixpoint for_of {A} (xs : list A) (f : A → query unit) : query unit :=
  match xs with
  | [] => ret tt
  | x :: rest => await _ ← f x ;; for_of rest f
  end.


(** [INSERT INTO accounts (public_key, registration_id) VALUES ($1, $2)
    RETURNING id]; [id] defaults to [gen_random_uuid()], here [fresh]. *)
Definition insert_account (fresh : uuid) (now : Z)
    (public_key : bytes) (registration_id : Z) : query uuid :=
  λ d,
    if decide (in_int4 registration_id) then
      if decide (fresh ∈ acc_id <$> accounts d) then (inl unique_violation, d)
      else if decide (public_key ∈ acc_public_key <$> accounts d)
      then (inl unique_violation, d)
      else
        (inr fresh,
         {| accounts := accounts d ++
              [{| acc_id := fresh; acc_public_key := public_key;
                  acc_registration_id := registration_id;
                  acc_created_at := now |}];
            signed_prekeys := signed_prekeys d;
            signed_prekeys_id_seq := signed_prekeys_id_seq d;
            one_time_prekeys := one_time_prekeys d;
            one_time_prekeys_id_seq := one_time_prekeys_id_seq d;
            message_queue := message_queue d |})
    else (inl numeric_value_out_of_range, d).

(** [SELECT ... FROM accounts WHERE public_key = $1] *)
Definition select_account_by_public_key (public_key : bytes) (d : db)
    : list account_row :=
  filter (λ r, acc_public_key r = public_key) (accounts d).

(** [SELECT ... FROM accounts WHERE id = $1] *)
Definition select_account_by_id (id : uuid) (d : db) : list account_row :=
  filter (λ r, acc_id r = id) (accounts d).

Definition set_signed_prekeys (rows : list signed_prekey_row) (seq : Z)
    (d : db) : db :=
  {| accounts := accounts d;
     signed_prekeys := rows;
     signed_prekeys_id_seq := seq;
     one_time_prekeys := one_time_prekeys d;
     one_time_prekeys_id_seq := one_time_prekeys_id_seq d;
     message_queue := message_queue d |}.

(** [INSERT INTO signed_prekeys (account_id, key_id, public_key, signature)
    VALUES ($1, $2, $3, $4)] *)
Definition insert_signed_prekey (now : Z) (account_id : uuid) (key_id : Z)
    (public_key signature : bytes) : query unit :=
  λ d,
    if decide (in_int4 key_id) then
      let id := signed_prekeys_id_seq d in
      if decide (account_id ∈ spk_account_id <$> signed_prekeys d)
      then (inl unique_violation,
            set_signed_prekeys (signed_prekeys d) (id + 1) d)
      else if decide (account_id ∈ acc_id <$> accounts d) then
        (inr tt,
         set_signed_prekeys
           (signed_prekeys d ++
              [{| spk_id := id; spk_account_id := account_id;
                  spk_key_id := key_id; spk_public_key := public_key;
                  spk_signature := signature; spk_created_at := now |}])
           (id + 1) d)
      else (inl foreign_key_violation,
            set_signed_prekeys (signed_prekeys d) (id + 1) d)
    else (inl numeric_value_out_of_range, d).

(** [SELECT key_id, public_key, signature FROM signed_prekeys
    WHERE account_id = $1] *)
Definition select_signed_prekey (account_id : uuid) (d : db)
    : list signed_prekey_row :=
  filter (λ r, spk_account_id r = account_id) (signed_prekeys d).

(** [INSERT INTO signed_prekeys ... ON CONFLICT (account_id) DO UPDATE
    SET key_id = $2, public_key = $3, signature = $4, created_at = NOW()] *)
Definition upsert_signed_prekey (now : Z) (account_id : uuid) (key_id : Z)
    (public_key signature : bytes) : query unit :=
  λ d,
    if decide (in_int4 key_id) then
      let id := signed_prekeys_id_seq d in
      if decide (account_id ∈ spk_account_id <$> signed_prekeys d) then
        (inr tt,
         set_signed_prekeys
           ((λ r, if decide (spk_account_id r = account_id)
                  then {| spk_id := spk_id r; spk_account_id := account_id;
                          spk_key_id := key_id; spk_public_key := public_key;
                          spk_signature := signature; spk_created_at := now |}
                  else r) <$> signed_prekeys d)
           (id + 1) d)
      else if decide (account_id ∈ acc_id <$> accounts d) then
        (inr tt,
         set_signed_prekeys
           (signed_prekeys d ++
              [{| spk_id := id; spk_account_id := account_id;
                  spk_key_id := key_id; spk_public_key := public_key;
                  spk_signature := signature; spk_created_at := now |}])
           (id + 1) d)
      else (inl foreign_key_violation,
            set_signed_prekeys (signed_prekeys d) (id + 1) d)
    else (inl numeric_value_out_of_range, d).

Definition set_one_time_prekeys (rows : list one_time_prekey_row) (seq : Z)
    (d : db) : db :=
  {| accounts := accounts d;
     signed_prekeys := signed_prekeys d;
     signed_prekeys_id_seq := signed_prekeys_id_seq d;
     one_time_prekeys := rows;
     one_time_prekeys_id_seq := seq;
     message_queue := message_queue d |}.

(** The pair the constraint [UNIQUE (account_id, key_id)] ranges over. *)
Definition otpk_pair (r : one_time_prekey_row) : uuid * Z :=
  (otpk_account_id r, otpk_key_id r).

(** [INSERT INTO one_time_prekeys (account_id, key_id, public_key)
    VALUES ($1, $2, $3)] *)
Definition insert_one_time_prekey (account_id : uuid) (key_id : Z)
    (public_key : bytes) : query unit :=
  λ d,
    if decide (in_int4 key_id) then
      let id := one_time_prekeys_id_seq d in
      if decide ((account_id, key_id) ∈ otpk_pair <$> one_time_prekeys d)
      then (inl unique_violation,
            set_one_time_prekeys (one_time_prekeys d) (id + 1) d)
      else if decide (account_id ∈ acc_id <$> accounts d) then
        (inr tt,
         set_one_time_prekeys
           (one_time_prekeys d ++
              [{| otpk_id := id; otpk_account_id := account_id;
                  otpk_key_id := key_id; otpk_public_key := public_key |}])
           (id + 1) d)
      else (inl foreign_key_violation,
            set_one_time_prekeys (one_time_prekeys d) (id + 1) d)
    else (inl numeric_value_out_of_range, d).

(** The same insert with [ON CONFLICT (account_id, key_id) DO NOTHING]. *)
Definition insert_one_time_prekey_on_conflict_do_nothing
    (account_id : uuid) (key_id : Z) (public_key : bytes) : query unit :=
  λ d,
    if decide (in_int4 key_id) then
      let id := one_time_prekeys_id_seq d in
      if decide ((account_id, key_id) ∈ otpk_pair <$> one_time_prekeys d)
      then (inr tt, set_one_time_prekeys (one_time_prekeys d) (id + 1) d)
      else if decide (account_id ∈ acc_id <$> accounts d) then
        (inr tt,
         set_one_time_prekeys
           (one_time_prekeys d ++
              [{| otpk_id := id; otpk_account_id := account_id;
                  otpk_key_id := key_id; otpk_public_key := public_key |}])
           (id + 1) d)
      else (inl foreign_key_violation,
            set_one_time_prekeys (one_time_prekeys d) (id + 1) d)
    else (inl numeric_value_out_of_range, d).

(** [ORDER BY id ASC] on [one_time_prekeys]. *)
Definition otpk_id_le (r1 r2 : one_time_prekey_row) : Prop :=
  otpk_id r1 <= otpk_id r2.

#[global] Instance otpk_id_le_dec : RelDecision otpk_id_le.
Proof. intros r1 r2. unfold otpk_id_le. apply _. Defined.

(** [SELECT id FROM one_time_prekeys WHERE account_id = $1
    ORDER BY id ASC LIMIT 1 FOR UPDATE SKIP LOCKED]; [locked] holds the
    identifiers of the rows that transactions in flight on other
    connections have locked when the statement runs: the scan passes
    over them. *)
Definition select_oldest_one_time_prekey (locked : gset Z)
    (account_id : uuid) (d : db) : list Z :=
  otpk_id <$>
    take 1 (merge_sort otpk_id_le
              (filter (λ r, otpk_account_id r = account_id ∧
                            otpk_id r ∉ locked)
                 (one_time_prekeys d))).

(** [DELETE FROM one_time_prekeys WHERE id = (SELECT ...)
    RETURNING key_id, public_key]: the scalar subquery is the selected id,
    or NULL (no row equals it) when nothing was selected. *)
Definition delete_oldest_one_time_prekey (locked : gset Z)
    (account_id : uuid) : query (list one_time_prekey_row) :=
  λ d,
    match select_oldest_one_time_prekey locked account_id d with
    | id :: _ =>
        (inr (filter (λ r, otpk_id r = id) (one_time_prekeys d)),
         set_one_time_prekeys
           (filter (λ r, otpk_id r ≠ id) (one_time_prekeys d))
           (one_time_prekeys_id_seq d) d)
    | [] => (inr [], d)
    end.

(** [SELECT COUNT( * ) as count FROM one_time_prekeys WHERE account_id = $1],
    read back with [parseInt]. *)
Definition count_one_time_prekeys (account_id : uuid) (d : db) : Z :=
  Z.of_nat
    (length (filter (λ r, otpk_account_id r = account_id)
               (one_time_prekeys d))).

Definition set_message_queue (rows : list message_queue_row) (d : db) : db :=
  {| accounts := accounts d;
     signed_prekeys := signed_prekeys d;
     signed_prekeys_id_seq := signed_prekeys_id_seq d;
     one_time_prekeys := one_time_prekeys d;
     one_time_prekeys_id_seq := one_time_prekeys_id_seq d;
     message_queue := rows |}.

(** [DEFAULT NOW() + INTERVAL '30 days'], in milliseconds. *)
Definition message_ttl : Z := 30 * 24 * 60 * 60 * 1000.

(** [INSERT INTO message_queue (recipient_id, ciphertext, message_type)
    VALUES ($1, $2, $3) RETURNING id]; [id] defaults to
    [gen_random_uuid()], here [fresh]. *)
Definition insert_message (fresh : uuid) (now : Z) (recipient_id : uuid)
    (ciphertext : bytes) (message_type : Z) : query uuid :=
  λ d,
    if decide (in_int2 message_type) then
      if decide (fresh ∈ mq_id <$> message_queue d)
      then (inl unique_violation, d)
      else if decide (recipient_id ∈ acc_id <$> accounts d) then
        (inr fresh,
         set_message_queue
           (message_queue d ++
              [{| mq_id := fresh; mq_recipient_id := recipient_id;
                  mq_ciphertext := ciphertext;
                  mq_message_type := message_type;
                  mq_expires_at := now + message_ttl |}]) d)
      else (inl foreign_key_violation, d)
    else (inl numeric_value_out_of_range, d).

(** [ORDER BY id ASC] on [message_queue]. *)
Definition mq_id_le (r1 r2 : message_queue_row) : Prop :=
  mq_id r1 <= mq_id r2.

#[global] Instance mq_id_le_dec : RelDecision mq_id_le.
Proof. intros r1 r2. unfold mq_id_le. apply _. Defined.

(** [SELECT id, ciphertext, message_type FROM message_queue
    WHERE recipient_id = $1 ORDER BY id ASC LIMIT 100] *)
Definition select_messages (recipient_id : uuid) (d : db)
    : list message_queue_row :=
  take 100 (merge_sort mq_id_le
              (filter (λ r, mq_recipient_id r = recipient_id)
                 (message_queue d))).

(** [DELETE FROM message_queue WHERE id = $1 AND recipient_id = $2
    RETURNING id] *)
Definition delete_message (id recipient_id : uuid) : query (list uuid) :=
  λ d,
    (inr (mq_id <$>
            filter (λ r, mq_id r = id ∧ mq_recipient_id r = recipient_id)
              (message_queue d)),
     set_message_queue
       (filter (λ r, ¬ (mq_id r = id ∧ mq_recipient_id r = recipient_id))
          (message_queue d)) d).


(** ** Redis

    A key holds a value and the instant it expires at; a key whose expiry
    has passed reads as absent. *)
Abbreviation redis_store := (gmap string (string * Z)).

(** [redis.set(key, value, 'EX', seconds)] *)
Definition redis_set (key value : string) (seconds : Z) (now : Z)
    (r : redis_store) : redis_store :=
  <[key := (value, now + seconds * 1000)]> r.

(** [redis.getdel(key)]: the value, or [null], and the store without the
    key. *)
Definition redis_getdel (key : string) (now : Z) (r : redis_store)
    : option string * redis_store :=
  match r !! key with
  | Some (value, expires_at) =>
      (if decide (expires_at < now) then None else Some value, delete key r)
  | None => (None, r)
  end.

(** ** The sockets of the relay (websocket/relay.js)

    A WebSocket with its [readyState]: 0 CONNECTING, 1 OPEN, 2 CLOSING,
    3 CLOSED. *)
Record socket := {
  socket_id : Z;
  readyState : Z }.

(** [connections], the Map from an account identifier to the Set of the
    sockets that authenticated for it, in the order they were added. *)
Abbreviation connection_map := (gmap uuid (list socket)).

(** ** What the server holds: the database, Redis and the sockets *)

Record state := {
  pg : db;
  redis : redis_store;
  connections : connection_map }.

Definition empty_state : state :=
  {| pg := empty_db; redis := ∅; connections := ∅ |}.

(** ** Requests and responses *)

Record signed_prekey_body := {
  spb_key_id : Z;
  spb_public_key : string;
  spb_signature : string }.

Record one_time_prekey_body := {
  opb_key_id : Z;
  opb_public_key : string }.

(** Body of [POST /accounts/register]. *)
Record register_body := {
  rb_public_key : option string;
  rb_registration_id : option Z;
  rb_signed_prekey : option signed_prekey_body;
  rb_one_time_prekeys : option (list one_time_prekey_body) }.

(** Body of [POST /accounts/verify]. *)
Record verify_body := {
  vb_public_key : option string;
  vb_signature : option string }.

(** Body of [POST /messages/send]. *)
Record send_body := {
  sb_recipient_id : option uuid;
  sb_ciphertext : option string;
  sb_message_type : option Z }.

(** Body of [PUT /keys/signed]. *)
Record signed_body := {
  gb_key_id : option Z;
  gb_public_key : option string;
  gb_signature : option string }.

(** A key as a response carries it: [key_id] and [public_key] in hex. *)
Record prekey_json := {
  pk_key_id : Z;
  pk_public_key : string }.

Record bundle := {
  bundle_registration_id : Z;
  bundle_identity_key : string;
  bundle_signed_prekey : prekey_json * string;
  bundle_one_time_prekey : option prekey_json }.

(** An entry of the [messages] array of the drain response. *)
Record message := {
  msg_id : uuid;
  msg_ciphertext : string;
  msg_message_type : Z }.

(** The payload the send handler gives [broadcastToAccount]:
    [{ type: 'new_message', message_id }]. *)
Inductive ws_payload :=
| new_message (message_id : uuid).

Inductive body :=
| error (code : string)
| account_id_body (account_id : uuid)
| nonce_body (nonce : string)
| token_body (token : string) (account_id : uuid)
| bundle_body (b : bundle) (prekey_count : Z) (needs_prekey_refresh : bool)
| uploaded_body (uploaded total : Z)
| updated_body
| message_id_body (message_id : uuid)
| messages_body (messages : list message)
| deleted_body.

Record response := {
  status : Z;
  json : body }.

Definition reply (code : Z) (b : body) : response :=
  {| status := code; json := b |}.

(** What a handler meets outside while it runs: the clock, the values
    it draws, and the rows of [one_time_prekeys] that statements in flight
    on other connections hold locked. *)
Record env := {
  now : Z;
  gen_random_uuid : uuid;
  randomBytes : bytes;
  uuidv4 : uuid;
  locked_rows : gset Z }.

Definition with_pg (s : state) (d : db) : state :=
  {| pg := d; redis := redis s; connections := connections s |}.

Definition with_redis (s : state) (r : redis_store) : state :=
  {| pg := pg s; redis := r; connections := connections s |}.

Definition crypto_sign_PUBLICKEYBYTES : nat := 32.

Definition challengeKey (public_key : string) : string :=
  "challenge:" +:+ public_key.

(** ** Loading the modules (index.js, cache/redis.js, api/auth.js) *)

(** The ioredis client [connectRedis] creates and connects. *)
Inductive redis_client := ioredis.

(** cache/redis.js keeps the client in the module variable [let redis],
    unassigned when the module is loaded; [connectRedis] assigns it, and
    the exported property [redis] is a getter that reads the variable
    each time it is called. *)
Definition cache_redis := option redis_client.

Definition load_cache_redis : cache_redis := None.

Definition connectRedis (m : cache_redis) : cache_redis := Some ioredis.

Definition get_redis (m : cache_redis) : option redis_client := m.

(** api/auth.js, [const { redis } = require('../cache/redis')]: the
    destructuring calls the getter once, while api/auth.js is loaded, and
    [redis] is a constant of the module from then on. *)
Definition load_api_auth (m : cache_redis) : option redis_client :=
  get_redis m.

(** What the modules hold once the server listens: the constant [redis]
    of api/auth.js and the variable of cache/redis.js. *)
Record server := {
  api_auth_redis : option redis_client;
  cache_redis_var : cache_redis }.

(** index.js requires cache/redis.js and then api/auth.js at the top of
    the file; [start()], the last statement, calls [connectRedis] and
    then listens. *)
Definition index_js : server :=
  let redis_var := load_cache_redis in
  let auth_redis := load_api_auth redis_var in
  let redis_var := connectRedis redis_var in
  {| api_auth_redis := auth_redis; cache_redis_var := redis_var |}.

(** ** The route handlers *)

Section Handlers.

(** [sodium.crypto_sign_verify_detached(signature, message, publicKey)];
    [None] when the call throws. *)
Variable crypto_sign_verify_detached : bytes → bytes → bytes → option bool.

(** [jwt.sign({ sub, jti }, JWT_SECRET, { expiresIn })] at a given instant;
    [None] when the call throws. *)
Variable jwt_sign : uuid → uuid → Z → option string.

(** [process.env.PREKEY_REFILL_THRESHOLD] *)
Variable PREKEY_REFILL_THRESHOLD : option Z.

Definition internal_error : response := reply 500 (error "internal_error").

(** The [catch] of the register handler. *)
Definition register_catch (e : pg_error) : response :=
  if decide (pg_code e = "23505")
  then reply 409 (error "key_already_registered")
  else internal_error.

(** The three groups of inserts of the register handler, one statement
    after the other. *)
Definition register_inserts (e : env) (pubKeyBytes : bytes)
    (registration_id : Z) (signed_prekey : signed_prekey_body)
    (one_time_prekeys : list one_time_prekey_body) : query uuid :=
  await accountId ←
    insert_account (gen_random_uuid e) (now e) pubKeyBytes registration_id ;;
  await _ ←
    insert_signed_prekey (now e) accountId (spb_key_id signed_prekey)
      (hex_decode (spb_public_key signed_prekey))
      (hex_decode (spb_signature signed_prekey)) ;;
  await _ ←
    for_of one_time_prekeys (λ otpk,
      insert_one_time_prekey accountId (opb_key_id otpk)
        (hex_decode (opb_public_key otpk))) ;;
  ret accountId.

(** [POST /api/v1/accounts/register] *)
Definition post_accounts_register (e : env) (b : register_body) (s : state)
    : response * state :=
  match rb_public_key b, rb_registration_id b,
        rb_signed_prekey b, rb_one_time_prekeys b with
  | Some public_key, Some registration_id,
    Some signed_prekey, Some one_time_prekeys =>
      if truthy_string (Some public_key) && truthy_number (Some registration_id)
      then
        let pubKeyBytes := hex_decode public_key in
        if decide (length pubKeyBytes ≠ crypto_sign_PUBLICKEYBYTES)
        then (reply 400 (error "invalid_key_length"), s)
        else
          let spkPubKey := hex_decode (spb_public_key signed_prekey) in
          let spkSig := hex_decode (spb_signature signed_prekey) in
          match crypto_sign_verify_detached spkSig spkPubKey pubKeyBytes with
          | None => (internal_error, s)
          | Some false =>
              (reply 400 (error "invalid_signed_prekey_signature"), s)
          | Some true =>
              match register_inserts e pubKeyBytes registration_id
                      signed_prekey one_time_prekeys (pg s) with
              | (inr accountId, d) =>
                  (reply 201 (account_id_body accountId), with_pg s d)
              | (inl err, d) => (register_catch err, with_pg s d)
              end
          end
      else (reply 400 (error "missing_fields"), s)
  | _, _, _, _ => (reply 400 (error "missing_fields"), s)
  end.

(** [POST /api/v1/accounts/challenge]; [client] is the constant [redis]
    of api/auth.js. When it is [undefined], evaluating [redis.set] throws a
    TypeError, which the handler's [catch] answers with 500. *)
Definition post_accounts_challenge (client : option redis_client) (e : env)
    (public_key : option string) (s : state) : response * state :=
  match public_key with
  | Some public_key =>
      if truthy_string (Some public_key) then
        let pubKeyBytes := hex_decode public_key in
        match select_account_by_public_key pubKeyBytes (pg s) with
        | [] =>
            let fakeNonce := hex_encode (randomBytes e) in
            (reply 200 (nonce_body fakeNonce), s)
        | _ :: _ =>
            let nonce := hex_encode (randomBytes e) in
            match client with
            | Some _ =>
                (reply 200 (nonce_body nonce),
                 with_redis s
                   (redis_set (challengeKey public_key) nonce 120 (now e)
                      (redis s)))
            | None => (internal_error, s)
            end
        end
      else (reply 400 (error "missing_fields"), s)
  | None => (reply 400 (error "missing_fields"), s)
  end.

(** [POST /api/v1/accounts/verify]; [client] is the constant [redis] of
    api/auth.js. When it is [undefined], evaluating [redis.getdel] throws
    a TypeError, which the handler's [catch] answers with 500. *)
Definition post_accounts_verify (client : option redis_client) (e : env)
    (b : verify_body) (s : state) : response * state :=
  match vb_public_key b, vb_signature b with
  | Some public_key, Some signature =>
      if truthy_string (Some public_key) && truthy_string (Some signature)
      then
        let pubKeyBytes := hex_decode public_key in
        let sigBytes := hex_decode signature in
        match client with
        | None => (internal_error, s)
        | Some _ =>
            let '(nonce, r) :=
              redis_getdel (challengeKey public_key) (now e) (redis s) in
            let s := with_redis s r in
            if truthy_string nonce then
              let nonceBytes := hex_decode (default EmptyString nonce) in
              match crypto_sign_verify_detached sigBytes nonceBytes
                      pubKeyBytes with
              | None => (internal_error, s)
              | Some false => (reply 401 (error "invalid_signature"), s)
              | Some true =>
                  match select_account_by_public_key pubKeyBytes (pg s) with
                  | [] => (reply 401 (error "account_not_found"), s)
                  | row :: _ =>
                      let accountId := acc_id row in
                      let jti := uuidv4 e in
                      match jwt_sign accountId jti (now e) with
                      | None => (internal_error, s)
                      | Some token =>
                          (reply 200 (token_body token accountId), s)
                      end
                  end
              end
            else (reply 401 (error "invalid_or_expired_challenge"), s)
        end
      else (reply 400 (error "missing_fields"), s)
  | _, _ => (reply 400 (error "missing_fields"), s)
  end.

(** [broadcastToAccount(accountId, payload)] of websocket/relay.js: it
    returns at once when the account has no entry or an empty set;
    otherwise every socket of the set whose [readyState] is 1 gets the
    payload, in the order of the set. The result lists the calls of
    [socket.send], which queue the frame on an open socket and return. *)
Definition broadcastToAccount (connections : connection_map)
    (accountId : uuid) (payload : ws_payload) : list (socket * ws_payload) :=
  match connections !! accountId with
  | None | Some [] => []
  | Some sockets =>
      (λ socket, (socket, payload)) <$>
        filter (λ socket, readyState socket = 1) sockets
  end.

(** [POST /api/v1/messages/send]; [account_id] is [req.account_id], set by
    [requireAuth]. *)
Definition post_messages_send (account_id : uuid) (e : env) (b : send_body)
    (s : state) : response * list (socket * ws_payload) * state :=
  let message_type := default 1 (sb_message_type b) in
  match sb_recipient_id b, sb_ciphertext b with
  | Some recipient_id, Some ciphertext =>
      if truthy_string (Some ciphertext) then
        let ciphertextBytes := hex_decode ciphertext in
        if decide (262144 < Z.of_nat (length ciphertextBytes))
        then (reply 413 (error "message_too_large"), [], s)
        else
          match select_account_by_id recipient_id (pg s) with
          | [] => (reply 404 (error "recipient_not_found"), [], s)
          | _ :: _ =>
              match insert_message (gen_random_uuid e) (now e) recipient_id
                      ciphertextBytes message_type (pg s) with
              | (inr messageId, d) =>
                  (reply 201 (message_id_body messageId),
                   broadcastToAccount (connections s) recipient_id
                     (new_message messageId),
                   with_pg s d)
              | (inl _, d) => (internal_error, [], with_pg s d)
              end
          end
      else (reply 400 (error "missing_fields"), [], s)
  | _, _ => (reply 400 (error "missing_fields"), [], s)
  end.

Definition message_of_row (row : message_queue_row) : message :=
  {| msg_id := mq_id row;
     msg_ciphertext := hex_encode (mq_ciphertext row);
     msg_message_type := mq_message_type row |}.

(** [GET /api/v1/messages/receive] *)
Definition get_messages_receive (account_id : uuid) (s : state)
    : response * state :=
  let rows := select_messages account_id (pg s) in
  (reply 200 (messages_body (message_of_row <$> rows)), s).

(** [DELETE /api/v1/messages/:id] *)
Definition delete_messages_id (account_id : uuid) (id : uuid) (s : state)
    : response * state :=
  match delete_message id account_id (pg s) with
  | (inr [], d) => (reply 404 (error "message_not_found"), with_pg s d)
  | (inr (_ :: _), d) => (reply 200 deleted_body, with_pg s d)
  | (inl _, d) => (internal_error, with_pg s d)
  end.

Definition prekey_of_row (row : one_time_prekey_row) : prekey_json :=
  {| pk_key_id := otpk_key_id row;
     pk_public_key := hex_encode (otpk_public_key row) |}.

(** [GET /api/v1/keys/:account_id]; [locked] is what the DELETE finds
    locked. *)
Definition get_keys_account_id (locked : gset Z) (account_id : uuid)
    (s : state) : response * state :=
  match select_account_by_id account_id (pg s) with
  | [] => (reply 404 (error "account_not_found"), s)
  | account :: _ =>
      match select_signed_prekey account_id (pg s) with
      | [] => (reply 404 (error "no_signed_prekey"), s)
      | spk :: _ =>
          match delete_oldest_one_time_prekey locked account_id (pg s) with
          | (inr otpkResult, d) =>
              let otpk := head otpkResult in
              let b :=
                {| bundle_registration_id := acc_registration_id account;
                   bundle_identity_key := hex_encode (acc_public_key account);
                   bundle_signed_prekey :=
                     ({| pk_key_id := spk_key_id spk;
                         pk_public_key := hex_encode (spk_public_key spk) |},
                      hex_encode (spk_signature spk));
                   bundle_one_time_prekey := prekey_of_row <$> otpk |} in
              let remainingPrekeys := count_one_time_prekeys account_id d in
              (reply 200
                 (bundle_body b remainingPrekeys
                    (bool_decide
                       (remainingPrekeys < default 10 PREKEY_REFILL_THRESHOLD))),
               with_pg s d)
          | (inl _, d) => (internal_error, with_pg s d)
          end
      end
  end.

(** [PUT /api/v1/keys/prekeys] *)
Definition put_keys_prekeys (account_id : uuid)
    (one_time_prekeys : option (list one_time_prekey_body)) (s : state)
    : response * state :=
  match one_time_prekeys with
  | None | Some [] => (reply 400 (error "missing_prekeys"), s)
  | Some one_time_prekeys =>
      if decide (200 < length one_time_prekeys)%nat
      then (reply 400 (error "too_many_prekeys"), s)
      else
        match for_of one_time_prekeys (λ key,
                insert_one_time_prekey_on_conflict_do_nothing account_id
                  (opb_key_id key) (hex_decode (opb_public_key key)))
                (pg s) with
        | (inr _, d) =>
            (reply 200
               (uploaded_body (Z.of_nat (length one_time_prekeys))
                  (count_one_time_prekeys account_id d)),
             with_pg s d)
        | (inl _, d) => (internal_error, with_pg s d)
        end
  end.

(** [PUT /api/v1/keys/signed] *)
Definition put_keys_signed (account_id : uuid) (e : env) (b : signed_body)
    (s : state) : response * state :=
  match gb_key_id b, gb_public_key b, gb_signature b with
  | Some key_id, Some public_key, Some signature =>
      if truthy_number (Some key_id) && truthy_string (Some public_key)
         && truthy_string (Some signature)
      then
        match select_account_by_id account_id (pg s) with
        | [] => (internal_error, s)
        | account :: _ =>
            let identityKey := acc_public_key account in
            let spkBytes := hex_decode public_key in
            let sigBytes := hex_decode signature in
            match crypto_sign_verify_detached sigBytes spkBytes identityKey with
            | None => (internal_error, s)
            | Some false => (reply 400 (error "invalid_signature"), s)
            | Some true =>
                match upsert_signed_prekey (now e) account_id key_id spkBytes
                        sigBytes (pg s) with
                | (inr _, d) => (reply 200 updated_body, with_pg s d)
                | (inl _, d) => (internal_error, with_pg s d)
                end
            end
        end
      else (reply 400 (error "missing_fields"), s)
  | _, _, _ => (reply 400 (error "missing_fields"), s)
  end.

(** ** The server as a transition system

    A request names its route and carries its body; for the routes behind
    [requireAuth] it also carries the account the bearer token resolved
    to. The routers are the ones index.js mounts, so the handlers of
    api/auth.js run with the [redis] that module holds. *)
Inductive request :=
| Register (b : register_body)
| Challenge (public_key : option string)
| Verify (b : verify_body)
| Send (account_id : uuid) (b : send_body)
| Receive (account_id : uuid)
| Delete (account_id : uuid) (id : uuid)
| KeysGet (account_id : uuid) (target : uuid)
| KeysPutPrekeys (account_id : uuid)
    (one_time_prekeys : option (list one_time_prekey_body))
| KeysPutSigned (account_id : uuid) (b : signed_body).

Definition step (e : env) (r : request) (s : state) : response * state :=
  match r with
  | Register b => post_accounts_register e b s
  | Challenge public_key =>
      post_accounts_challenge (api_auth_redis index_js) e public_key s
  | Verify b => post_accounts_verify (api_auth_redis index_js) e b s
  | Send account_id b =>
      let '(res, _, s') := post_messages_send account_id e b s in (res, s')
  | Receive account_id => get_messages_receive account_id s
  | Delete account_id id => delete_messages_id account_id id s
  | KeysGet _ target => get_keys_account_id (locked_rows e) target s
  | KeysPutPrekeys account_id one_time_prekeys =>
      put_keys_prekeys account_id one_time_prekeys s
  | KeysPutSigned account_id b => put_keys_signed account_id e b s
  end.

(** The state after a sequence of requests, each with what it drew. *)
Fixpoint run (trace : list (env * request)) (s : state) : state :=
  match trace with
  | [] => s
  | (e, r) :: rest => run rest (step e r s).2
  end.

(** ** Predicates the statements below are written with *)

Definition account_exists (public_key : string) (s : state) : Prop :=
  hex_decode public_key ∈ acc_public_key <$> accounts (pg s).


(** The loop of the replenish handler. *)
Definition replenish_loop (account_id : uuid)
    (keys : list one_time_prekey_body) : query unit :=
  for_of keys (λ key,
    insert_one_time_prekey_on_conflict_do_nothing account_id
      (opb_key_id key) (hex_decode (opb_public_key key))).

(** A row the loop added for one of the uploaded keys, under a pair the
    table did not hold. *)
Definition added_for (account_id : uuid) (keys : list one_time_prekey_body)
    (before : list one_time_prekey_row) (r : one_time_prekey_row) : Prop :=
  otpk_account_id r = account_id ∧
  ((account_id, otpk_key_id r) ∉ (otpk_pair <$> before)) ∧
  (∃ k, k ∈ keys ∧ otpk_key_id r = opb_key_id k ∧
        otpk_public_key r = hex_decode (opb_public_key k)).

(** The rows the loop of the register handler writes for the keys of the
    request, numbered from the sequence. *)
Fixpoint otpk_rows (account_id : uuid) (seq : Z)
    (keys : list one_time_prekey_body) : list one_time_prekey_row :=
  match keys with
  | [] => []
  | k :: rest =>
      {| otpk_id := seq; otpk_account_id := account_id;
         otpk_key_id := opb_key_id k;
         otpk_public_key := hex_decode (opb_public_key k) |}
      :: otpk_rows account_id (seq + 1) rest
  end.

Definition register_loop (account_id : uuid)
    (keys : list one_time_prekey_body) : query unit :=
  for_of keys (λ otpk,
    insert_one_time_prekey account_id (opb_key_id otpk)
      (hex_decode (opb_public_key otpk))).

Definition account_row_of (e : env) (public_key : bytes)
    (registration_id : Z) : account_row :=
  {| acc_id := gen_random_uuid e; acc_public_key := public_key;
     acc_registration_id := registration_id; acc_created_at := now e |}.

Definition signed_prekey_row_of (e : env) (seq : Z)
    (signed_prekey : signed_prekey_body) : signed_prekey_row :=
  {| spk_id := seq; spk_account_id := gen_random_uuid e;
     spk_key_id := spb_key_id signed_prekey;
     spk_public_key := hex_decode (spb_public_key signed_prekey);
     spk_signature := hex_decode (spb_signature signed_prekey);
     spk_created_at := now e |}.




(** The one-time prekeys an account has in the table. *)
Definition pool (account_id : uuid) (d : db) : list one_time_prekey_row :=
  filter (λ r, otpk_account_id r = account_id) (one_time_prekeys d).

(** The rows of the pool that no statement in flight holds locked. *)
Definition available (locked : gset Z) (account_id : uuid) (d : db)
    : list one_time_prekey_row :=
  filter (λ r, otpk_account_id r = account_id ∧ otpk_id r ∉ locked)
    (one_time_prekeys d).

(** The [one_time_prekey] of a bundle response; [None] for [null] and for
    any other response. *)
Definition returned_prekey (res : response) : option prekey_json :=
  match json res with
  | bundle_body b _ _ => bundle_one_time_prekey b
  | _ => None
  end.

(** ** Four statements of the specification, as it words them *)

(** The identifiers of a drain response, in the order of its [messages]
    array. *)
Definition drained_ids (res : response) : list uuid :=
  match json res with
  | messages_body messages => msg_id <$> messages
  | _ => []
  end.

(** Drain order is send order: of two messages sent to one recipient, the
    one sent first has the smaller identifier, and the drain never lists
    the one sent second ahead of it. *)
Definition drain_follows_send_order : Prop :=
  ∀ (sender1 sender2 recipient : uuid) (e1 e2 : env) (b1 b2 : send_body)
    (s : state) (id1 id2 : uuid),
    sb_recipient_id b1 = Some recipient →
    sb_recipient_id b2 = Some recipient →
    let s1 := (post_messages_send sender1 e1 b1 s).2 in
    let s2 := (post_messages_send sender2 e2 b2 s1).2 in
    (post_messages_send sender1 e1 b1 s).1.1
      = reply 201 (message_id_body id1) →
    (post_messages_send sender2 e2 b2 s1).1.1
      = reply 201 (message_id_body id2) →
    id1 < id2 ∧
    ∀ before between after,
      drained_ids (get_messages_receive recipient s2).1
        ≠ before ++ id2 :: between ++ id1 :: after.

(** Register is atomic: unless it answers 201, no row of the account, the
    signed prekey or the one-time prekeys persists. *)
Definition register_is_atomic : Prop :=
  ∀ (e : env) (b : register_body) (s : state),
    let res := (post_accounts_register e b s).1 in
    let s' := (post_accounts_register e b s).2 in
    status res ≠ 201 →
    accounts (pg s') = accounts (pg s) ∧
    signed_prekeys (pg s') = signed_prekeys (pg s) ∧
    one_time_prekeys (pg s') = one_time_prekeys (pg s).


(** Replenish takes every array: an authenticated upload of 1 to 200 keys
    is answered with the number of keys uploaded and the new pool total,
    and every uploaded (account, key id) pair is in the table
    afterwards. *)
Definition replenish_takes_every_array : Prop :=
  ∀ (account_id : uuid) (keys : list one_time_prekey_body) (s : state),
    account_id ∈ acc_id <$> accounts (pg s) →
    (1 ≤ length keys ≤ 200)%nat →
    let res := (put_keys_prekeys account_id (Some keys) s).1 in
    let s' := (put_keys_prekeys account_id (Some keys) s).2 in
    res = reply 200
            (uploaded_body (Z.of_nat (length keys))
               (count_one_time_prekeys account_id (pg s'))) ∧
    ∀ k, k ∈ keys →
         (account_id, opb_key_id k) ∈ otpk_pair <$> one_time_prekeys (pg s').

End Handlers.

(** ** The cleanup function of the schema *)

(** A row of [revoked_tokens]. *)
Record revoked_token_row := {
  rt_jti : uuid;
  rt_revoked_at : Z;
  rt_expires_at : Z }.

(** [cleanup_expired_data()]:
    [DELETE FROM message_queue WHERE expires_at < NOW();
     DELETE FROM revoked_tokens WHERE expires_at < NOW();]
    run at instant [now] on the database and the revocation table. *)
Definition cleanup_expired_data (now : Z) (d : db)
    (revoked_tokens : list revoked_token_row)
    : db * list revoked_token_row :=
  (set_message_queue
     (filter (λ r, ¬ mq_expires_at r < now) (message_queue d)) d,
   filter (λ r, ¬ rt_expires_at r < now) revoked_tokens).

(** ** The constraints the tables keep *)

(** The size limit of the send handler, in bytes. *)
Definition max_ciphertext : Z := 262144.

(** Unique account identifiers and public keys, public keys of
    [crypto_sign_PUBLICKEYBYTES] bytes; one signed prekey per account;
    prekey and queue rows that refer to existing accounts; one-time
    prekey identifiers that grow along the table and stay below the
    sequence; unique message identifiers, ciphertexts within the size
    limit and tags within SMALLINT. *)
Definition db_ok (d : db) : Prop :=
  NoDup (acc_id <$> accounts d) ∧
  NoDup (acc_public_key <$> accounts d) ∧
  Forall (λ r, length (acc_public_key r) = crypto_sign_PUBLICKEYBYTES)
    (accounts d) ∧
  NoDup (spk_account_id <$> signed_prekeys d) ∧
  (spk_account_id <$> signed_prekeys d) ⊆ (acc_id <$> accounts d) ∧
  (otpk_account_id <$> one_time_prekeys d) ⊆ (acc_id <$> accounts d) ∧
  StronglySorted Z.lt (otpk_id <$> one_time_prekeys d) ∧
  Forall (λ r, otpk_id r < one_time_prekeys_id_seq d) (one_time_prekeys d) ∧
  NoDup (mq_id <$> message_queue d) ∧
  (mq_recipient_id <$> message_queue d) ⊆ (acc_id <$> accounts d) ∧
  Forall (λ r, Z.of_nat (length (mq_ciphertext r)) <= max_ciphertext ∧
               in_int2 (mq_message_type r))
    (message_queue d).

(** Text made of pairs of lowercase hexadecimal digits: what
    [toString('hex')] produces. *)
Fixpoint lower_hex (s : string) : Prop :=
  match s with
  | EmptyString => True
  | String a (String b rest) =>
      (∃ h l, unhex a = Some h ∧ unhex b = Some l ∧
              hex_digit h = a ∧ hex_digit l = b) ∧
      lower_hex rest
  | String _ EmptyString => False
  end.

(** The signed prekey of a bundle response, if it is one. *)
Definition returned_signed_prekey (res : response)
    : option (prekey_json * string) :=
  match json res with
  | bundle_body b _ _ => Some (bundle_signed_prekey b)
  | _ => None
  end.

(** The messages of a drain response. *)
Definition drained (res : response) : list message :=
  match json res with
  | messages_body messages => messages
  | _ => []
  end.

(** The row a send answered 201 writes. *)
Definition sent_row (e : env) (recipient_id : uuid) (ciphertext : string)
    (message_type : option Z) : message_queue_row :=
  {| mq_id := gen_random_uuid e; mq_recipient_id := recipient_id;
     mq_ciphertext := hex_decode ciphertext;
     mq_message_type := default 1 message_type;
     mq_expires_at := now e + message_ttl |}.

(** * Sample data *)

(** A stand-in for Ed25519 to run the handlers on examples: the signature
    of a message under a key is the key followed by the message. *)
Definition sample_sign : bytes → bytes → bytes → option bool :=
  λ signature message publicKey,
    Some (bool_decide (signature = publicKey ++ message)).

Definition sample_jwt : uuid → uuid → Z → option string :=
  λ _ _ _, Some "token"%string.

Definition alice_key : string :=
  "0102030405060708090a0b0c0d0e0f101112131415161718191a1b1c1d1e1f20".

Definition bob_key : string :=
  "2122232425262728292a2b2c2d2e2f303132333435363738393a3b3c3d3e3f40".

Definition prekey_a : string :=
  "a1a2a3a4a5a6a7a8a9aaabacadaeafb0b1b2b3b4b5b6b7b8b9babbbcbdbebfc0".

Definition prekey_b : string :=
  "c1c2c3c4c5c6c7c8c9cacbcccdcecfd0d1d2d3d4d5d6d7d8d9dadbdcdddedfe0".

(** A request that meets no locked row. *)
Definition env_at (t : Z) (u : uuid) (random : bytes) : env :=
  {| now := t; gen_random_uuid := u; randomBytes := random;
     uuidv4 := u + 1000; locked_rows := ∅ |}.

Definition nonce_1 : bytes := replicate 32 Byte.x5a.

(** A register request in the shape of the first scenario of the
    specification: registration id 42, one signed prekey, one-time prekeys
    1 and 2. *)
Definition register_request (public_key : string) : register_body :=
  {| rb_public_key := Some public_key;
     rb_registration_id := Some 42;
     rb_signed_prekey :=
       Some {| spb_key_id := 1; spb_public_key := prekey_a;
               spb_signature := public_key +:+ prekey_a |};
     rb_one_time_prekeys :=
       Some [ {| opb_key_id := 1; opb_public_key := prekey_a |};
              {| opb_key_id := 2; opb_public_key := prekey_b |} ] |}.

(** The same request with registration id 0. *)
Definition register_request_zero : register_body :=
  {| rb_public_key := Some alice_key;
     rb_registration_id := Some 0;
     rb_signed_prekey := rb_signed_prekey (register_request alice_key);
     rb_one_time_prekeys := rb_one_time_prekeys (register_request alice_key) |}.

(** The same request with the one-time prekey identifier 1 twice. *)
Definition register_request_twice : register_body :=
  {| rb_public_key := Some alice_key;
     rb_registration_id := Some 42;
     rb_signed_prekey := rb_signed_prekey (register_request alice_key);
     rb_one_time_prekeys :=
       Some [ {| opb_key_id := 1; opb_public_key := prekey_a |};
              {| opb_key_id := 1; opb_public_key := prekey_b |} ] |}.

Definition alice : uuid := 10.
Definition bob : uuid := 20.

(** Alice and Bob registered, in this order. *)
Definition two_accounts : state :=
  run sample_sign sample_jwt None
    [ (env_at 1000 alice [], Register (register_request alice_key));
      (env_at 2000 bob [], Register (register_request bob_key)) ]
    empty_state.

Definition send_request (recipient : uuid) (hex : string) : send_body :=
  {| sb_recipient_id := Some recipient; sb_ciphertext := Some hex;
     sb_message_type := None |}.

Definition verify_request (public_key : string) (nonce : bytes) : verify_body :=
  {| vb_public_key := Some public_key;
     vb_signature := Some (public_key +:+ hex_encode nonce) |}.

Definition replenish_request (k1 k2 : Z) : list one_time_prekey_body :=
  [ {| opb_key_id := k1; opb_public_key := prekey_b |};
    {| opb_key_id := k2; opb_public_key := prekey_a |} ].


(** Alice rotates her signed prekey to key id 7. *)
Definition rotate_request : signed_body :=
  {| gb_key_id := Some 7; gb_public_key := Some prekey_b;
     gb_signature := Some (alice_key +:+ prekey_b) |}.

(** An upload whose second key has an identifier outside INTEGER. *)
Definition out_of_range_key : one_time_prekey_body :=
  {| opb_key_id := 2147483648; opb_public_key := prekey_a |}.

Definition carol_key : string :=
  "4142434445464748494a4b4c4d4e4f505152535455565758595a5b5c5d5e5f60".

Definition carol : uuid := 30.

(** Alice and Bob registered, and Alice has sent Bob one message that drew
    identifier 7. *)
Definition one_message : state :=
  run sample_sign sample_jwt None
    [ (env_at 1000 alice [], Register (register_request alice_key));
      (env_at 2000 bob [], Register (register_request bob_key));
      (env_at 3000 7 [], Send alice (send_request bob "aa")) ]
    empty_state.

(** * Properties *)

(** ** Hexadecimal text *)

Lemma hex_decode_encode (bs : bytes) : hex_decode (hex_encode bs) = bs.
Proof.
  induction bs as [|b bs IH]; [done|].
  cbn [hex_encode hex_decode]. rewrite IH.
  by destruct b.
Qed.

(** ** Rows selected by a predicate *)

Lemma filter_none {A} (P : A → Prop) `{∀ x, Decision (P x)} (l : list A) :
  filter P l = [] ↔ ∀ x, x ∈ l → ¬ P x.
Proof.
  induction l as [|a l IH].
  - split; [|done]. intros _ x Hx. by apply not_elem_of_nil in Hx.
  - rewrite filter_cons. destruct (decide (P a)) as [Ha|Ha].
    + split; [done|]. intros Hall. exfalso. apply (Hall a); [left|done].
    + rewrite IH. split.
      * intros Hall x [->|Hx]%elem_of_cons; auto.
      * intros Hall x Hx. apply Hall. by right.
Qed.

Lemma filter_all {A} (P : A → Prop) `{∀ x, Decision (P x)} (l : list A) :
  (∀ x, x ∈ l → P x) → filter P l = l.
Proof.
  induction l as [|a l IH]; [done|]. intros Hall.
  rewrite filter_cons_True by (apply Hall; left).
  f_equal. apply IH. intros x Hx. apply Hall. by right.
Qed.

(** ** [ORDER BY ... ASC LIMIT n] *)

#[global] Instance otpk_id_le_trans : Transitive otpk_id_le.
Proof. unfold otpk_id_le. intros x y z. lia. Qed.
#[global] Instance otpk_id_le_total : Total otpk_id_le.
Proof. unfold otpk_id_le. intros x y. lia. Qed.
#[global] Instance mq_id_le_trans : Transitive mq_id_le.
Proof. unfold mq_id_le. intros x y z. lia. Qed.
#[global] Instance mq_id_le_total : Total mq_id_le.
Proof. unfold mq_id_le. intros x y. lia. Qed.

Section OrderByLimit.

Context {A : Type} (R : relation A).
Context `{!RelDecision R, !Transitive R, !Total R}.

Lemma order_by_limit_length (n : nat) (l : list A) :
  (length (take n (merge_sort R l)) ≤ n)%nat.
Proof. rewrite length_take. lia. Qed.

Lemma order_by_limit_elem_of (n : nat) (l : list A) (x : A) :
  x ∈ take n (merge_sort R l) → x ∈ l.
Proof.
  intros Hx. apply (subseteq_take n) in Hx.
  by rewrite merge_sort_Permutation in Hx.
Qed.

Lemma order_by_limit_sorted (n : nat) (l : list A) :
  StronglySorted R (take n (merge_sort R l)).
Proof.
  pose proof (StronglySorted_merge_sort R l) as Hs.
  rewrite <- (take_drop n (merge_sort R l)) in Hs.
  by apply StronglySorted_app_1_l in Hs.
Qed.

(** A row left out by the limit sorts after every row that was kept. *)
Lemma order_by_limit_smallest (n : nat) (l : list A) (x y : A) :
  x ∈ take n (merge_sort R l) → y ∈ l → y ∉ take n (merge_sort R l) → R x y.
Proof.
  intros Hx Hy Hny.
  pose proof (StronglySorted_merge_sort R l) as Hs.
  rewrite <- (take_drop n (merge_sort R l)) in Hs.
  apply (StronglySorted_app_1_elem_of _ _ _ _ _ Hs Hx).
  rewrite <- (merge_sort_Permutation R l) in Hy.
  rewrite <- (take_drop n (merge_sort R l)) in Hy.
  apply elem_of_app in Hy as [Hy|Hy]; [done|exact Hy].
Qed.

Lemma order_by_limit_all (n : nat) (l : list A) :
  (length l ≤ n)%nat → take n (merge_sort R l) ≡ₚ l.
Proof.
  intros Hlen. rewrite take_ge; [apply merge_sort_Permutation|].
  by rewrite merge_sort_Permutation.
Qed.

(** The first row of the sorted list is a least one. *)
Lemma order_by_first (l : list A) (x : A) (rest : list A) :
  merge_sort R l = x :: rest → x ∈ l ∧ ∀ y, y ∈ l → R x y.
Proof.
  intros Heq. pose proof (StronglySorted_merge_sort R l) as Hs.
  rewrite Heq in Hs. apply StronglySorted_cons in Hs as [Hall _].
  split.
  - rewrite <- (merge_sort_Permutation R l), Heq. left.
  - intros y Hy. rewrite <- (merge_sort_Permutation R l), Heq in Hy.
    apply elem_of_cons in Hy as [->|Hy].
    + by destruct (total R x x).
    + by eapply Forall_forall in Hall.
Qed.

Lemma order_by_nil (l : list A) : merge_sort R l = [] → l = [].
Proof.
  intros Heq. apply Permutation_nil_r. by rewrite <- Heq, merge_sort_Permutation.
Qed.

End OrderByLimit.

Section Properties.

Context (crypto_sign_verify_detached : bytes → bytes → bytes → option bool).
Context (jwt_sign : uuid → uuid → Z → option string).
Context (PREKEY_REFILL_THRESHOLD : option Z).

Local Abbreviation register :=
  (post_accounts_register crypto_sign_verify_detached).
Local Abbreviation challenge :=
  (post_accounts_challenge (api_auth_redis index_js)).
Local Abbreviation verify :=
  (post_accounts_verify crypto_sign_verify_detached jwt_sign
     (api_auth_redis index_js)).
Local Abbreviation keys_get := (get_keys_account_id PREKEY_REFILL_THRESHOLD).
Local Abbreviation server_step :=
  (step crypto_sign_verify_detached jwt_sign PREKEY_REFILL_THRESHOLD).
Local Abbreviation server_run :=
  (run crypto_sign_verify_detached jwt_sign PREKEY_REFILL_THRESHOLD).

(** ** Register: the presence test *)

(** C9. A register request whose [registration_id] is the number 0 is
    answered 400 [missing_fields], whatever the other fields hold, and the
    stores are left as they were: no row is inserted. *)
Theorem register_zero_registration_id (e : env) (b : register_body)
    (s : state) :
  rb_registration_id b = Some 0 →
  register e b s = (reply 400 (error "missing_fields"), s).
Proof.
  intros Hz. unfold post_accounts_register. rewrite Hz.
  destruct (rb_public_key b) as [pk|]; [|done].
  destruct (rb_signed_prekey b); [|done].
  destruct (rb_one_time_prekeys b); [|done].
  cbn [truthy_number Z.eqb negb]. by rewrite andb_false_r.
Qed.

(** ** Challenge *)

Lemma select_account_by_public_key_nil (k : bytes) (d : db) :
  select_account_by_public_key k d = [] ↔ k ∉ acc_public_key <$> accounts d.
Proof.
  unfold select_account_by_public_key. rewrite list_elem_of_fmap. split.
  - intros Hnil (r & -> & Hr).
    assert (r ∈ filter (λ r', acc_public_key r' = acc_public_key r) (accounts d))
      as Hin by (by apply list_elem_of_filter).
    rewrite Hnil in Hin. by apply not_elem_of_nil in Hin.
  - intros Hno. apply filter_none.
    intros r Hr Heq. apply Hno. by exists r.
Qed.

(** The [redis] of api/auth.js is read before [connectRedis] has run. *)
Lemma api_auth_redis_undefined :
  api_auth_redis index_js = None ∧ cache_redis_var index_js = Some ioredis.
Proof. done. Qed.

(** C6, as the code has it. A challenge for the public key of an account
    reaches [redis.set] on the [undefined] of api/auth.js: it is answered
    500 [internal_error] and nothing is stored. A challenge for a key no
    account holds is answered 200 with the drawn bytes in hex. The two
    answers differ, so the response tells whether the key is
    registered. *)
Theorem challenge_fails_for_registered_key (e : env) (public_key : string)
    (s : state) :
  truthy_string (Some public_key) = true →
  (account_exists public_key s →
     challenge e (Some public_key) s
       = (reply 500 (error "internal_error"), s)) ∧
  (¬ account_exists public_key s →
     challenge e (Some public_key) s
       = (reply 200 (nonce_body (hex_encode (randomBytes e))), s)).
Proof.
  intros Hpk. unfold post_accounts_challenge, account_exists. rewrite Hpk.
  destruct (select_account_by_public_key (hex_decode public_key) (pg s))
    as [|row rows] eqn:Hsel.
  - apply select_account_by_public_key_nil in Hsel. by split.
  - split; [done|]. intros Hno.
    apply select_account_by_public_key_nil in Hno. congruence.
Qed.

(** ** Verify *)

(** Every verify is answered 400 [missing_fields] or 500
    [internal_error], and changes nothing. *)
Lemma verify_400_or_500 (e : env) (b : verify_body) (s : state) :
  verify e b s = (reply 400 (error "missing_fields"), s) ∨
  verify e b s = (reply 500 (error "internal_error"), s).
Proof.
  unfold post_accounts_verify.
  destruct (vb_public_key b) as [public_key|]; [|by left].
  destruct (vb_signature b) as [signature|]; [|by left].
  destruct (_ && _); [by right|by left].
Qed.

(** C10, as the code has it. A verify that carries a public key and a
    signature reaches [redis.getdel] on the [undefined] of api/auth.js
    before anything else: it is answered 500 [internal_error], never 401,
    and the stores are as before, an entry under [challenge:<pubkey>]
    included. *)
Theorem verify_fails_at_getdel (e : env) (b : verify_body)
    (public_key signature : string) (s : state) :
  vb_public_key b = Some public_key →
  vb_signature b = Some signature →
  truthy_string (Some public_key) = true →
  truthy_string (Some signature) = true →
  verify e b s = (reply 500 (error "internal_error"), s) ∧
  redis (verify e b s).2 !! challengeKey public_key
    = redis s !! challengeKey public_key.
Proof.
  intros Hpk Hsig Tpk Tsig. unfold post_accounts_verify.
  by rewrite Hpk, Hsig, Tpk, Tsig.
Qed.

(** ** Send *)

(** C5. The authenticated sender does not reach the queue: the response,
    the envelope handed to the sockets and the stores after a send are the
    same for any two senders. A send answered 201 appends one row, made of
    the drawn identifier, the recipient, the decoded ciphertext, the tag
    and the expiry 30 days ahead, and changes nothing else. *)
Theorem send_sender_anonymity (sender1 sender2 : uuid) (e : env) (b : send_body)
    (s : state) :
  post_messages_send sender1 e b s = post_messages_send sender2 e b s ∧
  ∀ res out s', post_messages_send sender1 e b s = (res, out, s') →
    status res = 201 →
    ∃ recipient_id ciphertext,
      sb_recipient_id b = Some recipient_id ∧
      sb_ciphertext b = Some ciphertext ∧
      message_queue (pg s') = message_queue (pg s) ++
        [{| mq_id := gen_random_uuid e;
            mq_recipient_id := recipient_id;
            mq_ciphertext := hex_decode ciphertext;
            mq_message_type := default 1 (sb_message_type b);
            mq_expires_at := now e + message_ttl |}] ∧
      accounts (pg s') = accounts (pg s) ∧
      signed_prekeys (pg s') = signed_prekeys (pg s) ∧
      one_time_prekeys (pg s') = one_time_prekeys (pg s) ∧
      redis s' = redis s.
Proof.
  split; [done|].
  intros res out s'. unfold post_messages_send.
  destruct (sb_recipient_id b) as [recipient_id|]; [|by intros [= <- <- <-]].
  destruct (sb_ciphertext b) as [ciphertext|]; [|by intros [= <- <- <-]].
  destruct (truthy_string (Some ciphertext)); [|by intros [= <- <- <-]].
  case_decide; [by intros [= <- <- <-]|].
  destruct (select_account_by_id recipient_id (pg s)); [by intros [= <- <- <-]|].
  unfold insert_message.
  repeat case_decide; intros [= <- <- <-]; try done.
  intros _. by exists recipient_id, ciphertext.
Qed.

(** ** Delete *)

Lemma with_pg_same (s : state) :
  with_pg s (set_message_queue (message_queue (pg s)) (pg s)) = s.
Proof. by destruct s as [[] ?]. Qed.


(** ** Replenish *)

Lemma set_one_time_prekeys_twice rows seq rows' seq' (d : db) :
  set_one_time_prekeys rows seq (set_one_time_prekeys rows' seq' d) =
  set_one_time_prekeys rows seq d.
Proof. done. Qed.

Lemma replenish_loop_cons (account_id : uuid) (k : one_time_prekey_body)
    (keys : list one_time_prekey_body) (d : db) :
  replenish_loop account_id (k :: keys) d =
    match insert_one_time_prekey_on_conflict_do_nothing account_id
            (opb_key_id k) (hex_decode (opb_public_key k)) d with
    | (inl e, d') => (inl e, d')
    | (inr _, d') => replenish_loop account_id keys d'
    end.
Proof. done. Qed.

Lemma replenish_loop_spec (account_id : uuid)
    (keys : list one_time_prekey_body) (d : db) :
  account_id ∈ acc_id <$> accounts d →
  Forall (λ k, in_int4 (opb_key_id k)) keys →
  ∃ added,
    replenish_loop account_id keys d =
      (inr tt,
       set_one_time_prekeys (one_time_prekeys d ++ added)
         (one_time_prekeys_id_seq d + Z.of_nat (length keys)) d) ∧
    Forall (added_for account_id keys (one_time_prekeys d)) added ∧
    (∀ k, k ∈ keys →
       (account_id, opb_key_id k) ∈ (otpk_pair <$> (one_time_prekeys d ++ added))) ∧
    (NoDup (otpk_pair <$> one_time_prekeys d) →
     NoDup (otpk_pair <$> (one_time_prekeys d ++ added))).
Proof.
  intros Hacc Hrange. revert d Hacc.
  induction Hrange as [|k keys Hk Hrange IH]; intros d Hacc.
  - exists []. rewrite app_nil_r. cbn [length Z.of_nat]. rewrite Z.add_0_r.
    split; [by destruct d|]. split; [done|]. split; [|done].
    intros k Hk. by apply not_elem_of_nil in Hk.
  - rewrite replenish_loop_cons.
    unfold insert_one_time_prekey_on_conflict_do_nothing.
    rewrite decide_True by done.
    destruct (decide ((account_id, opb_key_id k) ∈
                        otpk_pair <$> one_time_prekeys d)) as [Hin|Hout].
    + destruct (IH (set_one_time_prekeys (one_time_prekeys d)
                      (one_time_prekeys_id_seq d + 1) d) Hacc)
        as (added & Hrun & Hadded & Hall & Hnd).
      exists added. rewrite Hrun. rewrite set_one_time_prekeys_twice.
      cbn [one_time_prekeys one_time_prekeys_id_seq set_one_time_prekeys] in *.
      split; [cbn [length]; f_equal; f_equal; lia|].
      split; [|split; [|done]].
      * eapply Forall_impl; [exact Hadded|].
        intros r (? & ? & k' & ? & ? & ?). repeat split; try done.
        exists k'. split; [by right|done].
      * intros k' [->|Hk']%elem_of_cons; [|by apply Hall].
        rewrite fmap_app. apply elem_of_app. by left.
    + rewrite decide_True by done.
      set (row := {| otpk_id := one_time_prekeys_id_seq d;
                     otpk_account_id := account_id;
                     otpk_key_id := opb_key_id k;
                     otpk_public_key := hex_decode (opb_public_key k) |}).
      destruct (IH (set_one_time_prekeys (one_time_prekeys d ++ [row])
                      (one_time_prekeys_id_seq d + 1) d) Hacc)
        as (added & Hrun & Hadded & Hall & Hnd).
      exists (row :: added). rewrite Hrun. rewrite set_one_time_prekeys_twice.
      cbn [one_time_prekeys one_time_prekeys_id_seq set_one_time_prekeys] in *.
      rewrite <- !app_assoc in *. cbn [app] in *.
      split; [cbn [length]; f_equal; f_equal; lia|].
      split; [|split].
      * constructor.
        { split; [done|]. split; [done|]. exists k. split; [left|done]. }
        eapply Forall_impl; [exact Hadded|].
        intros r (? & Hnew & k' & ? & ? & ?). split; [done|]. split.
        { intros Hold. apply Hnew. rewrite fmap_app. apply elem_of_app. by left. }
        exists k'. split; [by right|done].
      * intros k' [->|Hk']%elem_of_cons; [|by apply Hall].
        rewrite fmap_app. apply elem_of_app. right. left.
      * intros Hnd0. apply Hnd. rewrite fmap_app. apply NoDup_app.
        split; [done|]. split; [|apply NoDup_singleton].
        intros p Hp [->|[]%not_elem_of_nil]%elem_of_cons. done.
Qed.

Lemma replenish_loop_noop (account_id : uuid)
    (keys : list one_time_prekey_body) (d : db) :
  Forall (λ k, in_int4 (opb_key_id k)) keys →
  (∀ k, k ∈ keys →
     (account_id, opb_key_id k) ∈ (otpk_pair <$> one_time_prekeys d)) →
  replenish_loop account_id keys d =
    (inr tt,
     set_one_time_prekeys (one_time_prekeys d)
       (one_time_prekeys_id_seq d + Z.of_nat (length keys)) d).
Proof.
  intros Hrange. revert d.
  induction Hrange as [|k keys Hk Hrange IH]; intros d Hall.
  - cbn [length Z.of_nat]. rewrite Z.add_0_r. by destruct d.
  - rewrite replenish_loop_cons.
    unfold insert_one_time_prekey_on_conflict_do_nothing.
    rewrite decide_True by done.
    rewrite decide_True by (apply Hall; left).
    rewrite IH.
    + rewrite set_one_time_prekeys_twice.
      cbn [one_time_prekeys one_time_prekeys_id_seq set_one_time_prekeys length].
      f_equal; f_equal; lia.
    + intros k' Hk'. apply Hall. by right.
Qed.

Lemma count_one_time_prekeys_app (account_id : uuid) rows added seq (d : db) :
  Forall (λ r, otpk_account_id r = account_id) added →
  count_one_time_prekeys account_id
    (set_one_time_prekeys (rows ++ added) seq d) =
  count_one_time_prekeys account_id (set_one_time_prekeys rows seq d) +
  Z.of_nat (length added).
Proof.
  intros Hadded. unfold count_one_time_prekeys.
  cbn [one_time_prekeys set_one_time_prekeys].
  rewrite filter_app, length_app, Nat2Z.inj_add.
  rewrite (filter_all _ added); [done|].
  by apply Forall_forall.
Qed.

(** C8, as the code has it. An authenticated replenish with 1 to 200 keys
    (identifiers within the INTEGER column) is answered 200 with the number of keys received
    and the pool size afterwards. Rows already in the table stay as they
    were, in place; a row is added only for an uploaded key whose
    (account, key id) pair the table did not hold, so a colliding key is
    skipped silently; afterwards every uploaded pair is in the table, the
    pairs stay unique, no other table changes, and sending the same
    array again adds no row. *)
Theorem replenish_idempotent (account_id : uuid)
    (keys : list one_time_prekey_body) (s : state) :
  account_id ∈ acc_id <$> accounts (pg s) →
  (1 ≤ length keys ≤ 200)%nat →
  Forall (λ k, in_int4 (opb_key_id k)) keys →
  let res := (put_keys_prekeys account_id (Some keys) s).1 in
  let s' := (put_keys_prekeys account_id (Some keys) s).2 in
  ∃ added,
    one_time_prekeys (pg s') = one_time_prekeys (pg s) ++ added ∧
    Forall (added_for account_id keys (one_time_prekeys (pg s))) added ∧
    res = reply 200
            (uploaded_body (Z.of_nat (length keys))
               (count_one_time_prekeys account_id (pg s) +
                Z.of_nat (length added))) ∧
    count_one_time_prekeys account_id (pg s') =
      count_one_time_prekeys account_id (pg s) + Z.of_nat (length added) ∧
    (∀ k, k ∈ keys →
       (account_id, opb_key_id k) ∈ (otpk_pair <$> one_time_prekeys (pg s'))) ∧
    (NoDup (otpk_pair <$> one_time_prekeys (pg s)) →
     NoDup (otpk_pair <$> one_time_prekeys (pg s'))) ∧
    accounts (pg s') = accounts (pg s) ∧
    signed_prekeys (pg s') = signed_prekeys (pg s) ∧
    message_queue (pg s') = message_queue (pg s) ∧
    redis s' = redis s ∧
    one_time_prekeys (pg (put_keys_prekeys account_id (Some keys) s').2) =
      one_time_prekeys (pg s').
Proof.
  intros Hacc [Hlo Hhi] Hrange.
  destruct (replenish_loop_spec account_id keys (pg s) Hacc Hrange)
    as (added & Hrun & Hadded & Hall & Hnd).
  assert (Forall (λ r, otpk_account_id r = account_id) added) as Hmine.
  { eapply Forall_impl; [exact Hadded|]. by intros r [? _]. }
  assert (count_one_time_prekeys account_id
            (set_one_time_prekeys (one_time_prekeys (pg s) ++ added)
               (one_time_prekeys_id_seq (pg s) + Z.of_nat (length keys)) (pg s)) =
          count_one_time_prekeys account_id (pg s) + Z.of_nat (length added))
    as Hcount by (by rewrite count_one_time_prekeys_app).
  assert (put_keys_prekeys account_id (Some keys) s =
          (reply 200
             (uploaded_body (Z.of_nat (length keys))
                (count_one_time_prekeys account_id (pg s) +
                 Z.of_nat (length added))),
           with_pg s
             (set_one_time_prekeys (one_time_prekeys (pg s) ++ added)
                (one_time_prekeys_id_seq (pg s) + Z.of_nat (length keys))
                (pg s)))) as Hput.
  { unfold put_keys_prekeys. destruct keys as [|k keys]; [cbn in Hlo; lia|].
    rewrite decide_False by lia.
    fold (replenish_loop account_id (k :: keys)). rewrite Hrun.
    by rewrite Hcount. }
  cbn zeta. rewrite Hput. cbn [fst snd pg with_pg].
  exists added.
  cbn [one_time_prekeys accounts signed_prekeys message_queue set_one_time_prekeys].
  repeat split; try done.
  unfold put_keys_prekeys. destruct keys as [|k keys]; [cbn in Hlo; lia|].
  rewrite decide_False by lia.
  fold (replenish_loop account_id (k :: keys)). cbn [pg with_pg].
  rewrite replenish_loop_noop; [done|done|].
  cbn [one_time_prekeys set_one_time_prekeys]. exact Hall.
Qed.

(** ** Drain *)

(** C2, as the code has it. Drain answers 200 with at most 100 rows of
    the authenticated recipient's queue and leaves the stores as they were.
    The rows come in ascending identifier order, and a queued row that was
    left out has an identifier at least as large as every row returned. The
    identifier of a message is the UUID drawn for it when it was sent,
    whatever that value is: the order of two messages in a drain follows
    their identifiers, not the order in which they were sent. *)
Theorem drain_ascending_by_id (account_id : uuid) (s : state) :
  ∃ rows,
    get_messages_receive account_id s =
      (reply 200 (messages_body (message_of_row <$> rows)), s) ∧
    (length rows ≤ 100)%nat ∧
    (∀ r, r ∈ rows →
       r ∈ message_queue (pg s) ∧ mq_recipient_id r = account_id) ∧
    StronglySorted (λ r1 r2, mq_id r1 <= mq_id r2) rows ∧
    (∀ r r', r ∈ rows → r' ∈ message_queue (pg s) →
       mq_recipient_id r' = account_id → r' ∉ rows → mq_id r <= mq_id r') ∧
    ((length (filter (λ r, mq_recipient_id r = account_id)
                (message_queue (pg s))) ≤ 100)%nat →
     ∀ r, r ∈ message_queue (pg s) → mq_recipient_id r = account_id →
          r ∈ rows) ∧
    (∀ sender e b res out s',
       post_messages_send sender e b s = (res, out, s') →
       status res = 201 →
       json res = message_id_body (gen_random_uuid e) ∧
       gen_random_uuid e ∈ mq_id <$> message_queue (pg s')).
Proof.
  exists (select_messages account_id (pg s)).
  unfold select_messages.
  split; [done|]. split; [apply order_by_limit_length|].
  split; [|split; [|split; [|split]]].
  - intros r Hr. apply order_by_limit_elem_of in Hr.
    apply list_elem_of_filter in Hr. tauto.
  - apply (order_by_limit_sorted mq_id_le).
  - intros r r' Hr Hr' Hrec Hout.
    apply (order_by_limit_smallest mq_id_le 100 _ r r' Hr); [|done].
    by apply list_elem_of_filter.
  - intros Hlen r Hr Hrec.
    rewrite (order_by_limit_all mq_id_le 100 _ Hlen).
    by apply list_elem_of_filter.
  - intros sender e b res out s'. unfold post_messages_send.
    destruct (sb_recipient_id b) as [recipient_id|]; [|by intros [= <- <- <-]].
    destruct (sb_ciphertext b) as [ciphertext|]; [|by intros [= <- <- <-]].
    destruct (truthy_string (Some ciphertext)); [|by intros [= <- <- <-]].
    case_decide; [by intros [= <- <- <-]|].
    destruct (select_account_by_id recipient_id (pg s)); [by intros [= <- <- <-]|].
    unfold insert_message.
    repeat case_decide; intros [= <- <- <-]; try done.
    intros _. split; [done|]. cbn. rewrite fmap_app. apply elem_of_app. right. left.
Qed.

(** ** Register: the inserts *)

Lemma register_loop_cons (account_id : uuid) (k : one_time_prekey_body)
    (keys : list one_time_prekey_body) (d : db) :
  register_loop account_id (k :: keys) d =
    match insert_one_time_prekey account_id (opb_key_id k)
            (hex_decode (opb_public_key k)) d with
    | (inl e, d') => (inl e, d')
    | (inr _, d') => register_loop account_id keys d'
    end.
Proof. done. Qed.

(** The loop stores the rows of a prefix of the keys, all of them when it
    completes, and touches nothing but the one-time prekey table and its
    sequence. *)
Lemma register_loop_spec (account_id : uuid)
    (keys : list one_time_prekey_body) (d : db) :
  ∃ (n : nat) seq',
    (register_loop account_id keys d).2 =
      set_one_time_prekeys
        (one_time_prekeys d ++
           otpk_rows account_id (one_time_prekeys_id_seq d) (take n keys))
        seq' d ∧
    (∀ u, (register_loop account_id keys d).1 = inr u → n = length keys).
Proof.
  revert d. induction keys as [|k keys IH]; intros d.
  - exists 0%nat, (one_time_prekeys_id_seq d). cbn. rewrite app_nil_r.
    split; [by destruct d|done].
  - rewrite register_loop_cons. unfold insert_one_time_prekey.
    repeat case_decide.
    + exists 0%nat, (one_time_prekeys_id_seq d + 1). cbn. by rewrite app_nil_r.
    + destruct (IH (set_one_time_prekeys
                      (one_time_prekeys d ++
                         [{| otpk_id := one_time_prekeys_id_seq d;
                             otpk_account_id := account_id;
                             otpk_key_id := opb_key_id k;
                             otpk_public_key := hex_decode (opb_public_key k) |}])
                      (one_time_prekeys_id_seq d + 1) d))
        as (n & seq' & Hst & Hres).
      exists (S n), seq'. rewrite Hst.
      split; [|intros u Hu; cbn [length]; f_equal; by eapply Hres].
      rewrite set_one_time_prekeys_twice.
      cbn [one_time_prekeys one_time_prekeys_id_seq set_one_time_prekeys
           take otpk_rows].
      by rewrite <- app_assoc.
    + exists 0%nat, (one_time_prekeys_id_seq d + 1). cbn. by rewrite app_nil_r.
    + exists 0%nat, (one_time_prekeys_id_seq d). cbn. rewrite app_nil_r.
      split; [by destruct d|done].
Qed.

Lemma register_inserts_eq (e : env) (public_key : bytes)
    (registration_id : Z) (signed_prekey : signed_prekey_body)
    (keys : list one_time_prekey_body) (d : db) :
  register_inserts e public_key registration_id signed_prekey keys d =
    match insert_account (gen_random_uuid e) (now e) public_key
            registration_id d with
    | (inl err, d1) => (inl err, d1)
    | (inr accountId, d1) =>
        match insert_signed_prekey (now e) accountId
                (spb_key_id signed_prekey)
                (hex_decode (spb_public_key signed_prekey))
                (hex_decode (spb_signature signed_prekey)) d1 with
        | (inl err, d2) => (inl err, d2)
        | (inr _, d2) =>
            match register_loop accountId keys d2 with
            | (inl err, d3) => (inl err, d3)
            | (inr _, d3) => (inr accountId, d3)
            end
        end
    end.
Proof. done. Qed.

(** What the three groups of inserts leave behind, whether they complete
    or stop at a failing statement. *)
Lemma register_inserts_spec (e : env) (public_key : bytes)
    (registration_id : Z) (signed_prekey : signed_prekey_body)
    (keys : list one_time_prekey_body) (d : db) :
  let r :=
    (register_inserts e public_key registration_id signed_prekey keys d).1 in
  let d' :=
    (register_inserts e public_key registration_id signed_prekey keys d).2 in
  message_queue d' = message_queue d ∧
  ((d' = d ∧ ∃ err, r = inl err) ∨
   (accounts d' = accounts d ++ [account_row_of e public_key registration_id] ∧
    ((signed_prekeys d' = signed_prekeys d ∧
      one_time_prekeys d' = one_time_prekeys d ∧ ∃ err, r = inl err) ∨
     (signed_prekeys d' = signed_prekeys d ++
        [signed_prekey_row_of e (signed_prekeys_id_seq d) signed_prekey] ∧
      ∃ n : nat,
        one_time_prekeys d' = one_time_prekeys d ++
          otpk_rows (gen_random_uuid e) (one_time_prekeys_id_seq d)
            (take n keys) ∧
        ((∃ err, r = inl err) ∨
         (r = inr (gen_random_uuid e) ∧ n = length keys)))))).
Proof.
  rewrite register_inserts_eq. unfold insert_account.
  repeat case_decide; cbn zeta;
    try (split; [done|left; split; [done|by eexists]]).
  unfold insert_signed_prekey.
  cbn [accounts signed_prekeys signed_prekeys_id_seq one_time_prekeys
       one_time_prekeys_id_seq message_queue].
  repeat case_decide; cbn zeta;
    try (split; [done|right; split; [done|left; repeat split; by eexists]]).
  match goal with
  | |- context [register_loop _ _ ?d0] =>
      destruct (register_loop_spec (gen_random_uuid e) keys d0)
        as (n & seq' & Hst & Hres);
      destruct (register_loop (gen_random_uuid e) keys d0) as [[err|[]] d1] eqn:Hloop
  end; cbn [fst snd] in *; subst d1; cbn.
  - split; [done|right; split; [done|right; split; [done|]]].
    exists n. split; [done|left; by eexists].
  - split; [done|right; split; [done|right; split; [done|]]].
    exists n. split; [done|right]. split; [done|]. by eapply Hres.
Qed.

Lemma with_pg_pg (s : state) : with_pg s (pg s) = s.
Proof. by destruct s. Qed.

Lemma app_singleton_neq {A} (l : list A) (x : A) : l ++ [x] ≠ l.
Proof.
  intros Heq. apply (f_equal length) in Heq.
  rewrite length_app in Heq. cbn in Heq. lia.
Qed.

(** C3, as the code has it. The register handler sends the account insert,
    the signed-prekey insert and one insert per one-time prekey as separate
    statements, each committed on its own, before it responds. A 201
    response means that the account row, the signed-prekey row and a row
    for every one-time prekey of the request are stored. When no account
    row was added, the stores are exactly as before. In every case rows
    are only appended to the three tables, and the queue and Redis are
    untouched. *)
Theorem register_statement_by_statement (e : env) (b : register_body)
    (s : state) :
  let res := (register e b s).1 in
  let s' := (register e b s).2 in
  (status res = 201 →
     ∃ public_key registration_id signed_prekey keys,
       rb_public_key b = Some public_key ∧
       rb_registration_id b = Some registration_id ∧
       rb_signed_prekey b = Some signed_prekey ∧
       rb_one_time_prekeys b = Some keys ∧
       json res = account_id_body (gen_random_uuid e) ∧
       accounts (pg s') = accounts (pg s) ++
         [account_row_of e (hex_decode public_key) registration_id] ∧
       signed_prekeys (pg s') = signed_prekeys (pg s) ++
         [signed_prekey_row_of e (signed_prekeys_id_seq (pg s)) signed_prekey] ∧
       one_time_prekeys (pg s') = one_time_prekeys (pg s) ++
         otpk_rows (gen_random_uuid e) (one_time_prekeys_id_seq (pg s)) keys) ∧
  (accounts (pg s') = accounts (pg s) → s' = s) ∧
  accounts (pg s) `prefix_of` accounts (pg s') ∧
  signed_prekeys (pg s) `prefix_of` signed_prekeys (pg s') ∧
  one_time_prekeys (pg s) `prefix_of` one_time_prekeys (pg s') ∧
  message_queue (pg s') = message_queue (pg s) ∧
  redis s' = redis s.
Proof.
  unfold post_accounts_register.
  destruct (rb_public_key b) as [public_key|]; [|by repeat split].
  destruct (rb_registration_id b) as [registration_id|]; [|by repeat split].
  destruct (rb_signed_prekey b) as [signed_prekey|]; [|by repeat split].
  destruct (rb_one_time_prekeys b) as [keys|]; [|by repeat split].
  destruct (_ && _); [|by repeat split].
  case_decide; [by repeat split|].
  destruct (crypto_sign_verify_detached _ _ _) as [[]|]; [|by repeat split..].
  pose proof (register_inserts_spec e (hex_decode public_key) registration_id
                signed_prekey keys (pg s)) as Hspec.
  destruct (register_inserts e (hex_decode public_key) registration_id
              signed_prekey keys (pg s)) as [[err|accountId] d'].
  - (* a statement failed *)
    cbn [fst snd pg redis with_pg] in *.
    assert (status (register_catch err) ≠ 201) as Hstatus
      by (unfold register_catch; case_decide; done).
    destruct Hspec
      as [Hmq [[-> _]|[Hacc [(Hspk & Hotpk & _)|(Hspk & n & Hotpk & _)]]]].
    all: rewrite ?with_pg_pg, ?Hacc, ?Hspk, ?Hotpk.
    all: repeat split;
      try done; try (by apply prefix_app_r);
      try (by intros []%app_singleton_neq).
  - (* all statements went through *)
    cbn [fst snd pg redis with_pg] in *.
    destruct Hspec
      as [Hmq [[_ [? [=]]]|[Hacc [(_ & _ & ? & [=])|(Hspk & n & Hotpk & Hr)]]]].
    destruct Hr as [[? [=]]|[[= ->] ->]].
    rewrite firstn_all in Hotpk. rewrite Hacc, Hspk, Hotpk.
    repeat split;
      try done; try (by apply prefix_app_r);
      try (by intros []%app_singleton_neq).
    intros _. by exists public_key, registration_id, signed_prekey, keys.
Qed.

(** ** Redis along a run *)

(** No handler writes to Redis. *)
Lemma step_redis (e : env) (r : request) (s : state) :
  redis (server_step e r s).2 = redis s.
Proof.
  destruct r as [b|public_key|b|a b|a|a i|a t|a ks|a b]; cbn [step].
  - unfold post_accounts_register.
    repeat (case_match || case_decide); done.
  - unfold post_accounts_challenge. repeat case_match; done.
  - by destruct (verify_400_or_500 e b s) as [-> | ->].
  - unfold post_messages_send, insert_message.
    repeat (case_match || case_decide); simplify_eq; done.
  - done.
  - unfold delete_messages_id. repeat case_match; done.
  - unfold get_keys_account_id. repeat case_match; done.
  - unfold put_keys_prekeys. repeat (case_match || case_decide); done.
  - unfold put_keys_signed. repeat (case_match || case_decide); done.
Qed.

Lemma run_redis (trace : list (env * request)) (s : state) :
  redis (server_run trace s) = redis s.
Proof.
  revert s. induction trace as [|[e r] trace IH]; intros s; [done|].
  cbn [run]. by rewrite IH, step_redis.
Qed.

Lemma run_app (tr1 tr2 : list (env * request)) (s : state) :
  server_run (tr1 ++ tr2) s = server_run tr2 (server_run tr1 s).
Proof.
  revert s. induction tr1 as [|[e r] tr1 IH]; intros s; [done|].
  cbn [app run]. apply IH.
Qed.

(** C4, as the code has it. Whatever challenge was requested and whatever
    requests followed, a verify is answered 400 [missing_fields] or 500
    [internal_error]: no verify accepts a nonce, and a verify that comes
    after an accepted one or after the 120 seconds is answered 500, not
    401. No challenge leaves an entry in Redis. *)
Theorem no_verify_is_answered_200_or_401 (e0 : env)
    (public_key : option string) (s : state) (trace : list (env * request))
    (e : env) (b : verify_body) :
  let s0 := (challenge e0 public_key s).2 in
  let res := (verify e b (server_run trace s0)).1 in
  s0 = s ∧
  redis (server_run trace s0) = redis s ∧
  (res = reply 400 (error "missing_fields") ∨
   res = reply 500 (error "internal_error")) ∧
  status res ≠ 200 ∧ status res ≠ 401.
Proof.
  cbn zeta.
  assert ((challenge e0 public_key s).2 = s) as ->.
  { unfold post_accounts_challenge. by repeat case_match. }
  split; [done|]. split; [apply run_redis|].
  by destruct (verify_400_or_500 e b (server_run trace s)) as [-> | ->];
    cbn; auto.
Qed.

(** ** The one-time prekey table along a run *)

Lemma NoDup_fmap_filter {A B} (f : A → B) (P : A → Prop)
    `{∀ x, Decision (P x)} (l : list A) :
  NoDup (f <$> l) → NoDup (f <$> filter P l).
Proof.
  induction l as [|a l IH]; [done|].
  rewrite fmap_cons, NoDup_cons. intros [Ha Hl].
  rewrite filter_cons. case_decide; [|by apply IH].
  rewrite fmap_cons, NoDup_cons. split; [|by apply IH].
  intros (x & Hfx & Hx)%list_elem_of_fmap. apply Ha.
  apply list_elem_of_fmap. exists x. split; [done|].
  by apply list_elem_of_filter in Hx as [_ ?].
Qed.

Lemma elem_of_fmap_filter {A B} (f : A → B) (P : A → Prop)
    `{∀ x, Decision (P x)} (l : list A) (y : B) :
  y ∈ f <$> filter P l → y ∈ f <$> l.
Proof.
  intros (x & -> & Hx)%list_elem_of_fmap.
  apply list_elem_of_fmap. exists x. split; [done|].
  by apply list_elem_of_filter in Hx as [_ ?].
Qed.

Lemma NoDup_fmap_eq {A B} (f : A → B) (l : list A) (x y : A) :
  NoDup (f <$> l) → x ∈ l → y ∈ l → f x = f y → x = y.
Proof.
  induction l as [|a l IH]; [by intros _ ?%not_elem_of_nil|].
  rewrite fmap_cons, NoDup_cons. intros [Ha Hl] Hx Hy Hf.
  apply elem_of_cons in Hx as [->|Hx], Hy as [->|Hy]; [done| | |by apply IH].
  - destruct Ha. rewrite Hf. by apply list_elem_of_fmap_2.
  - destruct Ha. rewrite <- Hf. by apply list_elem_of_fmap_2.
Qed.






Lemma for_of_inv {A} (Q : db → Prop) (xs : list A) (f : A → query unit)
    (d : db) :
  (∀ x d0, x ∈ xs → Q d0 → Q (f x d0).2) →
  Q d → Q (for_of xs f d).2.
Proof.
  revert d. induction xs as [|x xs IH]; intros d Hf Hd; [done|].
  cbn [for_of]. unfold bind.
  pose proof (Hf x d (list_elem_of_here _ _) Hd) as Hx.
  destruct (f x d) as [[err|[]] d1]; [done|].
  apply IH; [|done]. intros y d0 Hy. apply Hf. by right.
Qed.









Lemma keys_get_pg (locked : gset Z) (target : uuid) (s : state) :
  pg (keys_get locked target s).2 = pg s ∨
  pg (keys_get locked target s).2
    = (delete_oldest_one_time_prekey locked target (pg s)).2.
Proof.
  unfold get_keys_account_id.
  destruct (select_account_by_id _ _); [by left|].
  destruct (select_signed_prekey _ _); [by left|].
  right. by destruct (delete_oldest_one_time_prekey _ _ _) as [[err|?] d'].
Qed.

Lemma put_keys_prekeys_pg (account_id : uuid)
    (keys : option (list one_time_prekey_body)) (s : state) :
  pg (put_keys_prekeys account_id keys s).2 = pg s ∨
  ∃ ks, keys = Some ks ∧
    pg (put_keys_prekeys account_id keys s).2 =
      (replenish_loop account_id ks (pg s)).2.
Proof.
  unfold put_keys_prekeys.
  destruct keys as [[|k ks]|]; [by left| |by left].
  case_decide; [by left|].
  right. exists (k :: ks). split; [done|].
  fold (replenish_loop account_id (k :: ks)).
  by destruct (replenish_loop _ _ _) as [[err|?] d'].
Qed.

Lemma put_keys_signed_pg (account_id : uuid) (e : env) (b : signed_body)
    (s : state) :
  pg (put_keys_signed crypto_sign_verify_detached account_id e b s).2 = pg s ∨
  ∃ key_id public_key signature,
    pg (put_keys_signed crypto_sign_verify_detached account_id e b s).2 =
      (upsert_signed_prekey (now e) account_id key_id public_key signature
         (pg s)).2.
Proof.
  unfold put_keys_signed.
  destruct (gb_key_id b) as [key_id|]; [|by left].
  destruct (gb_public_key b) as [public_key|]; [|by left].
  destruct (gb_signature b) as [signature|]; [|by left].
  destruct (_ && _); [|by left].
  destruct (select_account_by_id _ _); [by left|].
  destruct (crypto_sign_verify_detached _ _ _) as [[]|]; [|by left..].
  right. exists key_id, (hex_decode public_key), (hex_decode signature).
  by destruct (upsert_signed_prekey _ _ _ _ _ _) as [[err|?] d'].
Qed.




(** ** Fetch bundle *)

Lemma filter_key_unique {A B} `{EqDecision B} (f : A → B) (l : list A) (r : A) :
  NoDup (f <$> l) → r ∈ l → filter (λ x, f x = f r) l = [r].
Proof.
  induction l as [|a l IH]; [by intros _ ?%not_elem_of_nil|].
  rewrite fmap_cons, NoDup_cons. intros [Ha Hl] [->|Hr]%elem_of_cons.
  - rewrite filter_cons_True by done. f_equal.
    apply filter_none. intros x Hx Hfx. apply Ha. rewrite <- Hfx.
    by apply list_elem_of_fmap_2.
  - rewrite filter_cons_False; [by apply IH|].
    intros Hfa. apply Ha. rewrite Hfa. by apply list_elem_of_fmap_2.
Qed.

Lemma delete_oldest_spec (locked : gset Z) (account_id : uuid) (d : db) :
  NoDup (otpk_id <$> one_time_prekeys d) →
  (available locked account_id d = [] ∧
   delete_oldest_one_time_prekey locked account_id d = (inr [], d)) ∨
  (∃ r,
     r ∈ one_time_prekeys d ∧ otpk_account_id r = account_id ∧
     (otpk_id r ∉ locked) ∧
     (∀ r', r' ∈ one_time_prekeys d → otpk_account_id r' = account_id →
            otpk_id r' ∉ locked → otpk_id r <= otpk_id r') ∧
     delete_oldest_one_time_prekey locked account_id d =
       (inr [r],
        set_one_time_prekeys
          (filter (λ r', otpk_id r' ≠ otpk_id r) (one_time_prekeys d))
          (one_time_prekeys_id_seq d) d)).
Proof.
  intros Hids. unfold delete_oldest_one_time_prekey,
    select_oldest_one_time_prekey.
  fold (available locked account_id d).
  destruct (merge_sort otpk_id_le (available locked account_id d))
    as [|r rest] eqn:Hsort.
  - left. split; [|done]. by apply (order_by_nil otpk_id_le).
  - right. destruct (order_by_first otpk_id_le _ _ _ Hsort) as [Hr Hmin].
    apply list_elem_of_filter in Hr as [[Hacc Hfree] Hr].
    exists r. split; [done|]. split; [done|]. split; [done|]. split.
    + intros r' Hr' Hacc' Hfree'. apply Hmin. by apply list_elem_of_filter.
    + cbn [take fmap list_fmap]. by rewrite (filter_key_unique otpk_id).
Qed.

Lemma select_account_by_id_cons (id : uuid) (d : db) :
  id ∈ acc_id <$> accounts d → ∃ r rs, select_account_by_id id d = r :: rs.
Proof.
  intros (r & -> & Hr)%list_elem_of_fmap. unfold select_account_by_id.
  destruct (filter _ _) as [|r0 rs] eqn:Hf; [|by eauto].
  by destruct (proj1 (filter_none _ _) Hf r Hr).
Qed.

Lemma select_signed_prekey_cons (id : uuid) (d : db) :
  id ∈ spk_account_id <$> signed_prekeys d →
  ∃ r rs, select_signed_prekey id d = r :: rs.
Proof.
  intros (r & -> & Hr)%list_elem_of_fmap. unfold select_signed_prekey.
  destruct (filter _ _) as [|r0 rs] eqn:Hf; [|by eauto].
  by destruct (proj1 (filter_none _ _) Hf r Hr).
Qed.



End Properties.

(** * The statements on the sample data *)

(** C9 on an example: the register request of the first scenario with
    registration id 0 is refused and nothing is stored. *)
Lemma register_zero_registration_id_witness :
  post_accounts_register sample_sign (env_at 1000 alice [])
    register_request_zero empty_state
  = (reply 400 (error "missing_fields"), empty_state).
Proof.
  apply (register_zero_registration_id sample_sign). reflexivity.
Defined.

(** C6 on an example: a challenge for Alice's key is answered 500, one
    for a key nobody registered is answered 200 with a nonce. *)
Lemma challenge_fails_for_registered_key_witness :
  let e := env_at 5000 0 nonce_1 in
  post_accounts_challenge (api_auth_redis index_js) e (Some alice_key)
    two_accounts
  = (reply 500 (error "internal_error"), two_accounts) ∧
  post_accounts_challenge (api_auth_redis index_js) e (Some prekey_a)
    two_accounts
  = (reply 200 (nonce_body (hex_encode nonce_1)), two_accounts).
Proof.
  intros e. split.
  - apply (challenge_fails_for_registered_key e alice_key two_accounts
             eq_refl).
    unfold account_exists. compute_done.
  - apply (challenge_fails_for_registered_key e prekey_a two_accounts
             eq_refl).
    unfold account_exists. compute_done.
Defined.

(** C8 on an example: Alice, who holds key ids 1 and 2, uploads key ids 2
    and 3; the upload is answered with 2 received and a pool of 3. *)
Lemma replenish_idempotent_witness :
  ∃ added,
    one_time_prekeys
      (pg (put_keys_prekeys alice (Some (replenish_request 2 3)) two_accounts).2)
    = one_time_prekeys (pg two_accounts) ++ added ∧
    (put_keys_prekeys alice (Some (replenish_request 2 3)) two_accounts).1
    = reply 200 (uploaded_body 2 (2 + Z.of_nat (length added))).
Proof.
  destruct (replenish_idempotent alice (replenish_request 2 3) two_accounts)
    as (added & Hrows & _ & Hres & _).
  - compute_done.
  - cbn. lia.
  - repeat constructor; cbn; lia.
  - exists added. split; [exact Hrows|exact Hres].
Defined.

(** C10 on an example: Alice's verify is answered 500, whatever it
    signs. *)
Lemma verify_fails_at_getdel_witness :
  post_accounts_verify sample_sign sample_jwt (api_auth_redis index_js)
    (env_at 6000 0 []) (verify_request alice_key nonce_1) two_accounts
  = (reply 500 (error "internal_error"), two_accounts).
Proof.
  exact (proj1 (verify_fails_at_getdel sample_sign sample_jwt
                  (env_at 6000 0 []) (verify_request alice_key nonce_1)
                  alice_key (alice_key +:+ hex_encode nonce_1) two_accounts
                  eq_refl eq_refl eq_refl eq_refl)).
Defined.


(** ** Where the code departs from the specification's wording *)


(** C2, counterexample. Alice sends Bob a message that draws identifier 7,
    then one that draws identifier 3: Bob's drain lists the second message
    first. *)
Lemma drain_not_in_send_order :
  let s1 := (post_messages_send alice (env_at 3000 7 [])
               (send_request bob "aa") two_accounts).2 in
  let s2 := (post_messages_send alice (env_at 4000 3 [])
               (send_request bob "bb") s1).2 in
  (get_messages_receive bob s2).1 =
    reply 200
      (messages_body
         [ {| msg_id := 3; msg_ciphertext := "bb"; msg_message_type := 1 |};
           {| msg_id := 7; msg_ciphertext := "aa"; msg_message_type := 1 |} ]) ∧
  ¬ drain_follows_send_order.
Proof.
  split; [reflexivity|].
  intros Hspec.
  destruct (Hspec alice alice bob (env_at 3000 7 []) (env_at 4000 3 [])
              (send_request bob "aa") (send_request bob "bb") two_accounts
              7 3 eq_refl eq_refl eq_refl eq_refl) as [Hlt Horder].
  by apply (Horder [] [] []).
Qed.

(** C8, counterexample. Alice uploads one key whose identifier is
    2147483648, one more than the INTEGER column holds: the answer is 500
    [internal_error] and the key is not stored. *)
Lemma replenish_refuses_key_id_out_of_range :
  let res := (put_keys_prekeys alice (Some [out_of_range_key]) two_accounts).1 in
  let s' := (put_keys_prekeys alice (Some [out_of_range_key]) two_accounts).2 in
  res = reply 500 (error "internal_error") ∧
  s' = two_accounts ∧
  ¬ replenish_takes_every_array.
Proof.
  split; [reflexivity|]. split; [reflexivity|].
  intros Hspec.
  destruct (Hspec alice [out_of_range_key] two_accounts) as [Hres _].
  - compute_done.
  - cbn. lia.
  - vm_compute in Hres. discriminate Hres.
Qed.

(** C3, counterexample. A register request whose one-time prekeys repeat an
    identifier is answered 409, yet the account row, the signed prekey row
    and the first one-time prekey row are stored. *)
Lemma register_rows_persist_after_failure :
  let res := (post_accounts_register sample_sign (env_at 1000 alice [])
                register_request_twice empty_state).1 in
  let s' := (post_accounts_register sample_sign (env_at 1000 alice [])
               register_request_twice empty_state).2 in
  res = reply 409 (error "key_already_registered") ∧
  acc_id <$> accounts (pg s') = [alice] ∧
  spk_account_id <$> signed_prekeys (pg s') = [alice] ∧
  otpk_pair <$> one_time_prekeys (pg s') = [(alice, 1)] ∧
  ¬ register_is_atomic sample_sign.
Proof.
  repeat (split; [reflexivity|]).
  intros Hspec.
  destruct (Hspec (env_at 1000 alice []) register_request_twice empty_state)
    as [Hacc _]; [by vm_compute|].
  vm_compute in Hacc. discriminate Hacc.
Qed.

(** * Further properties of the handlers *)

(** ** The constraints along a run *)

Lemma StronglySorted_fmap_filter {A B} (R : relation B) (f : A → B)
    (P : A → Prop) `{∀ x, Decision (P x)} (l : list A) :
  StronglySorted R (f <$> l) → StronglySorted R (f <$> filter P l).
Proof.
  induction l as [|a l IH]; [done|].
  rewrite fmap_cons, StronglySorted_cons. intros [Ha Hl].
  rewrite filter_cons. case_decide; [|by apply IH].
  rewrite fmap_cons, StronglySorted_cons. split; [|by apply IH].
  apply Forall_forall. intros y Hy%elem_of_fmap_filter.
  by eapply Forall_forall in Ha.
Qed.

Lemma subseteq_fmap_filter {A B} (f : A → B) (P : A → Prop)
    `{∀ x, Decision (P x)} (l : list A) (k : list B) :
  f <$> l ⊆ k → f <$> filter P l ⊆ k.
Proof. intros Hsub y Hy%elem_of_fmap_filter. by apply Hsub. Qed.

Lemma subseteq_app_r_trans {B} (l k : list B) (x : list B) :
  l ⊆ k → l ⊆ k ++ x.
Proof. intros Hsub y Hy. apply elem_of_app. left. by apply Hsub. Qed.

Lemma db_ok_empty : db_ok empty_db.
Proof.
  unfold db_ok. cbn. split_and!; try constructor; by intros ? ?%not_elem_of_nil.
Qed.

Lemma insert_account_ok (fresh : uuid) (now0 : Z) (public_key : bytes)
    (registration_id : Z) (d : db) :
  length public_key = crypto_sign_PUBLICKEYBYTES →
  db_ok d →
  db_ok (insert_account fresh now0 public_key registration_id d).2.
Proof.
  intros Hlen Hok. unfold insert_account.
  repeat case_decide; cbn [snd]; try done.
  destruct Hok as (K1 & K2 & K3 & K4 & K5 & K6 & K7 & K8 & K9 & K10 & K11).
  unfold db_ok. cbn [accounts signed_prekeys one_time_prekeys
                     one_time_prekeys_id_seq message_queue].
  rewrite !fmap_app. cbn [fmap list_fmap].
  split_and!; try done; try (by apply subseteq_app_r_trans).
  - apply NoDup_app. split; [done|]. split; [|apply NoDup_singleton].
    by intros i Hi [->|[]%not_elem_of_nil]%elem_of_cons.
  - apply NoDup_app. split; [done|]. split; [|apply NoDup_singleton].
    by intros i Hi [->|[]%not_elem_of_nil]%elem_of_cons.
  - apply Forall_app. split; [done|]. by apply Forall_singleton.
Qed.

Lemma insert_signed_prekey_ok (now0 : Z) (account_id : uuid) (key_id : Z)
    (public_key signature : bytes) (d : db) :
  db_ok d →
  db_ok (insert_signed_prekey now0 account_id key_id public_key signature d).2.
Proof.
  intros Hok. unfold insert_signed_prekey.
  repeat case_decide; cbn [snd]; try done.
  destruct Hok as (K1 & K2 & K3 & K4 & K5 & K6 & K7 & K8 & K9 & K10 & K11).
  unfold db_ok. cbn [accounts signed_prekeys one_time_prekeys
                     one_time_prekeys_id_seq message_queue set_signed_prekeys].
  rewrite !fmap_app. cbn [fmap list_fmap].
  split_and!; try done.
  - apply NoDup_app. split; [done|]. split; [|apply NoDup_singleton].
    by intros i Hi [->|[]%not_elem_of_nil]%elem_of_cons.
  - intros a [Ha|Ha]%elem_of_app; [by apply K5|].
    by apply elem_of_cons in Ha as [->|[]%not_elem_of_nil].
Qed.

Lemma upsert_accounts (now0 : Z) (account_id : uuid) (key_id : Z)
    (public_key signature : bytes) (rows : list signed_prekey_row) :
  spk_account_id <$>
    ((λ r, if decide (spk_account_id r = account_id)
           then {| spk_id := spk_id r; spk_account_id := account_id;
                   spk_key_id := key_id; spk_public_key := public_key;
                   spk_signature := signature; spk_created_at := now0 |}
           else r) <$> rows)
  = spk_account_id <$> rows.
Proof.
  rewrite <- list_fmap_compose. apply list_fmap_ext.
  intros i r _. cbn. by case_decide.
Qed.

Lemma upsert_signed_prekey_ok (now0 : Z) (account_id : uuid) (key_id : Z)
    (public_key signature : bytes) (d : db) :
  db_ok d →
  db_ok (upsert_signed_prekey now0 account_id key_id public_key signature d).2.
Proof.
  intros Hok. unfold upsert_signed_prekey.
  destruct Hok as (K1 & K2 & K3 & K4 & K5 & K6 & K7 & K8 & K9 & K10 & K11).
  repeat case_decide; cbn [snd]; unfold db_ok;
    cbn [accounts signed_prekeys one_time_prekeys
         one_time_prekeys_id_seq message_queue set_signed_prekeys];
    rewrite ?upsert_accounts; try done.
  rewrite !fmap_app. cbn [fmap list_fmap].
  split_and!; try done.
  - apply NoDup_app. split; [done|]. split; [|apply NoDup_singleton].
    by intros i Hi [->|[]%not_elem_of_nil]%elem_of_cons.
  - intros a [Ha|Ha]%elem_of_app; [by apply K5|].
    by apply elem_of_cons in Ha as [->|[]%not_elem_of_nil].
Qed.

Lemma db_ok_otpk_seq (d : db) :
  db_ok d →
  db_ok (set_one_time_prekeys (one_time_prekeys d)
           (one_time_prekeys_id_seq d + 1) d).
Proof.
  intros (K1 & K2 & K3 & K4 & K5 & K6 & K7 & K8 & K9 & K10 & K11).
  unfold db_ok. cbn. split_and!; try done.
  eapply Forall_impl; [exact K8|]. cbn. intros r. lia.
Qed.

Lemma db_ok_otpk_append (d : db) (account_id : uuid) (key_id : Z)
    (public_key : bytes) :
  db_ok d →
  account_id ∈ acc_id <$> accounts d →
  db_ok
    (set_one_time_prekeys
       (one_time_prekeys d ++
          [{| otpk_id := one_time_prekeys_id_seq d;
              otpk_account_id := account_id; otpk_key_id := key_id;
              otpk_public_key := public_key |}])
       (one_time_prekeys_id_seq d + 1) d).
Proof.
  intros (K1 & K2 & K3 & K4 & K5 & K6 & K7 & K8 & K9 & K10 & K11) Hacc.
  unfold db_ok. cbn [accounts signed_prekeys one_time_prekeys
                     one_time_prekeys_id_seq message_queue
                     set_one_time_prekeys].
  rewrite !fmap_app. cbn [fmap list_fmap].
  split_and!; try done.
  - intros a [Ha|Ha]%elem_of_app; [by apply K6|].
    by apply elem_of_cons in Ha as [->|[]%not_elem_of_nil].
  - apply StronglySorted_app_2; [|done|repeat constructor].
    intros i j Hi [->|[]%not_elem_of_nil]%elem_of_cons.
    apply list_elem_of_fmap in Hi as (r & -> & Hr).
    by eapply Forall_forall in K8.
  - apply Forall_app. split.
    + eapply Forall_impl; [exact K8|]. cbn. intros r. lia.
    + apply Forall_singleton. cbn. lia.
Qed.

Lemma insert_one_time_prekey_ok (account_id : uuid) (key_id : Z)
    (public_key : bytes) (d : db) :
  db_ok d →
  db_ok (insert_one_time_prekey account_id key_id public_key d).2.
Proof.
  intros Hok. unfold insert_one_time_prekey.
  repeat case_decide; cbn [snd];
    auto using db_ok_otpk_seq, db_ok_otpk_append.
Qed.

Lemma insert_on_conflict_ok (account_id : uuid) (key_id : Z)
    (public_key : bytes) (d : db) :
  db_ok d →
  db_ok (insert_one_time_prekey_on_conflict_do_nothing account_id key_id
           public_key d).2.
Proof.
  intros Hok. unfold insert_one_time_prekey_on_conflict_do_nothing.
  repeat case_decide; cbn [snd];
    auto using db_ok_otpk_seq, db_ok_otpk_append.
Qed.

Lemma delete_oldest_ok (locked : gset Z) (account_id : uuid) (d : db) :
  db_ok d → db_ok (delete_oldest_one_time_prekey locked account_id d).2.
Proof.
  intros Hok. unfold delete_oldest_one_time_prekey.
  destruct (select_oldest_one_time_prekey locked account_id d) as [|i ?];
    [done|].
  destruct Hok as (K1 & K2 & K3 & K4 & K5 & K6 & K7 & K8 & K9 & K10 & K11).
  unfold db_ok. cbn [snd accounts signed_prekeys one_time_prekeys
                     one_time_prekeys_id_seq message_queue
                     set_one_time_prekeys].
  split_and!; try done.
  - by apply subseteq_fmap_filter.
  - by apply StronglySorted_fmap_filter.
  - apply Forall_forall. intros r [_ Hr]%list_elem_of_filter.
    by eapply Forall_forall in K8.
Qed.

Lemma db_ok_mq_append (d : db) (row : message_queue_row) :
  db_ok d →
  Z.of_nat (length (mq_ciphertext row)) <= max_ciphertext →
  in_int2 (mq_message_type row) →
  mq_recipient_id row ∈ acc_id <$> accounts d →
  mq_id row ∉ mq_id <$> message_queue d →
  db_ok (set_message_queue (message_queue d ++ [row]) d).
Proof.
  intros (K1 & K2 & K3 & K4 & K5 & K6 & K7 & K8 & K9 & K10 & K11)
    Hsize Htype Hrec Hfresh.
  unfold db_ok. cbn [accounts signed_prekeys one_time_prekeys
                     one_time_prekeys_id_seq message_queue set_message_queue].
  rewrite !fmap_app. cbn [fmap list_fmap].
  split_and!; try done.
  - apply NoDup_app. split; [done|]. split; [|apply NoDup_singleton].
    by intros i Hi [->|[]%not_elem_of_nil]%elem_of_cons.
  - intros a [Ha|Ha]%elem_of_app; [by apply K10|].
    by apply elem_of_cons in Ha as [->|[]%not_elem_of_nil].
  - apply Forall_app. split; [done|]. by apply Forall_singleton.
Qed.

Lemma delete_message_ok (id recipient_id : uuid) (d : db) :
  db_ok d → db_ok (delete_message id recipient_id d).2.
Proof.
  intros (K1 & K2 & K3 & K4 & K5 & K6 & K7 & K8 & K9 & K10 & K11).
  unfold delete_message, db_ok.
  cbn [snd accounts signed_prekeys one_time_prekeys
       one_time_prekeys_id_seq message_queue set_message_queue].
  split_and!; try done.
  - by apply NoDup_fmap_filter.
  - by apply subseteq_fmap_filter.
  - apply Forall_forall. intros r [_ Hr]%list_elem_of_filter.
    by eapply Forall_forall in K11.
Qed.

Section Further.

Context (crypto_sign_verify_detached : bytes → bytes → bytes → option bool).
Context (jwt_sign : uuid → uuid → Z → option string).
Context (PREKEY_REFILL_THRESHOLD : option Z).

Local Abbreviation register :=
  (post_accounts_register crypto_sign_verify_detached).
Local Abbreviation keys_get := (get_keys_account_id PREKEY_REFILL_THRESHOLD).
Local Abbreviation keys_put_signed :=
  (put_keys_signed crypto_sign_verify_detached).
Local Abbreviation server_step :=
  (step crypto_sign_verify_detached jwt_sign PREKEY_REFILL_THRESHOLD).
Local Abbreviation server_run :=
  (run crypto_sign_verify_detached jwt_sign PREKEY_REFILL_THRESHOLD).

Lemma register_inserts_ok (e : env) (public_key : bytes)
    (registration_id : Z) (signed_prekey : signed_prekey_body)
    (keys : list one_time_prekey_body) (d : db) :
  length public_key = crypto_sign_PUBLICKEYBYTES →
  db_ok d →
  db_ok (register_inserts e public_key registration_id signed_prekey keys d).2.
Proof.
  intros Hlen Hok. rewrite register_inserts_eq.
  pose proof (insert_account_ok (gen_random_uuid e) (now e) public_key
                registration_id d Hlen Hok) as K1.
  destruct (insert_account _ _ _ _ d) as [[err|a] d1]; cbn [snd] in *; [done|].
  pose proof (insert_signed_prekey_ok (now e) a (spb_key_id signed_prekey)
                (hex_decode (spb_public_key signed_prekey))
                (hex_decode (spb_signature signed_prekey)) d1 K1) as K2.
  destruct (insert_signed_prekey _ _ _ _ _ d1) as [[err|[]] d2];
    cbn [snd] in *; [done|].
  assert (db_ok (register_loop a keys d2).2) as K3.
  { apply (for_of_inv db_ok); [|done].
    intros k d0 _ Hd0. by apply insert_one_time_prekey_ok. }
  by destruct (register_loop a keys d2) as [[err|[]] d3].
Qed.

Lemma register_shape (e : env) (b : register_body) (s : state) :
  ((register e b s).2 = s ∧ status (register e b s).1 ≠ 201) ∨
  ∃ public_key registration_id signed_prekey keys,
    rb_public_key b = Some public_key ∧
    rb_registration_id b = Some registration_id ∧
    rb_signed_prekey b = Some signed_prekey ∧
    rb_one_time_prekeys b = Some keys ∧
    registration_id ≠ 0 ∧
    length (hex_decode public_key) = crypto_sign_PUBLICKEYBYTES ∧
    crypto_sign_verify_detached (hex_decode (spb_signature signed_prekey))
      (hex_decode (spb_public_key signed_prekey)) (hex_decode public_key)
      = Some true ∧
    register e b s =
      (match (register_inserts e (hex_decode public_key) registration_id
                signed_prekey keys (pg s)).1 with
       | inr accountId => reply 201 (account_id_body accountId)
       | inl err => register_catch err
       end,
       with_pg s
         (register_inserts e (hex_decode public_key) registration_id
            signed_prekey keys (pg s)).2).
Proof.
  unfold post_accounts_register.
  destruct (rb_public_key b) as [public_key|]; [|by left].
  destruct (rb_registration_id b) as [registration_id|]; [|by left].
  destruct (rb_signed_prekey b) as [signed_prekey|]; [|by left].
  destruct (rb_one_time_prekeys b) as [keys|]; [|by left].
  destruct (truthy_string (Some public_key)); [|by left].
  destruct (truthy_number (Some registration_id)) eqn:Hreg; [|by left].
  cbn [andb]. case_decide as Hlen; [by left|].
  destruct (crypto_sign_verify_detached _ _ _) as [[]|] eqn:Hsig; [|by left..].
  right. exists public_key, registration_id, signed_prekey, keys.
  split_and!; try done.
  - intros ->. done.
  - by destruct (register_inserts _ _ _ _ _ _) as [[err|?] d'].
Qed.

Lemma send_shape (account_id : uuid) (e : env) (b : send_body) (s : state) :
  ((post_messages_send account_id e b s).2 = s ∧
   (post_messages_send account_id e b s).1.2 = [] ∧
   status (post_messages_send account_id e b s).1.1 ≠ 201) ∨
  (∃ recipient_id ciphertext,
     sb_recipient_id b = Some recipient_id ∧
     sb_ciphertext b = Some ciphertext ∧
     Z.of_nat (length (hex_decode ciphertext)) <= max_ciphertext ∧
     recipient_id ∈ acc_id <$> accounts (pg s) ∧
     in_int2 (default 1 (sb_message_type b)) ∧
     (gen_random_uuid e ∉ mq_id <$> message_queue (pg s)) ∧
     post_messages_send account_id e b s =
       (reply 201 (message_id_body (gen_random_uuid e)),
        broadcastToAccount (connections s) recipient_id
          (new_message (gen_random_uuid e)),
        with_pg s
          (set_message_queue
             (message_queue (pg s) ++
                [sent_row e recipient_id ciphertext (sb_message_type b)])
             (pg s)))).
Proof.
  unfold post_messages_send.
  destruct (sb_recipient_id b) as [recipient_id|]; [|by left].
  destruct (sb_ciphertext b) as [ciphertext|]; [|by left].
  destruct (truthy_string _); [|by left].
  case_decide as Hsize; [by left|].
  destruct (select_account_by_id recipient_id (pg s)) eqn:Hsel; [by left|].
  unfold insert_message.
  case_decide; [|left; by rewrite with_pg_pg].
  case_decide; [left; by rewrite with_pg_pg|].
  case_decide; [|left; by rewrite with_pg_pg].
  right. exists recipient_id, ciphertext. unfold max_ciphertext.
  split_and!; try done. lia.
Qed.

Lemma step_ok (e : env) (r : request) (s : state) :
  db_ok (pg s) → db_ok (pg (server_step e r s).2).
Proof.
  intros Hok.
  destruct r as [b|public_key|b|a b|a|a i|a t|a ks|a b]; cbn [step].
  - destruct (register_shape e b s)
      as [[-> _]|(pk & ? & ? & ? & _ & _ & _ & _ & _ & Hlen & _ & ->)]; [done|].
    by apply register_inserts_ok.
  - unfold post_accounts_challenge. by repeat case_match.
  - unfold post_accounts_verify. by repeat case_match.
  - pose proof (send_shape a e b s) as Hshape.
    destruct (post_messages_send a e b s) as [[res out] s'].
    cbn [fst snd] in *.
    destruct Hshape
      as [(-> & _)|(rid & ct & _ & _ & ? & ? & ? & ? & [= _ _ ->])]; [done|].
    by apply db_ok_mq_append.
  - done.
  - unfold delete_messages_id.
    pose proof (delete_message_ok i a (pg s) Hok) as Hdel.
    by destruct (delete_message i a (pg s)) as [[err|[|? ?]] d'].
  - destruct (keys_get_pg PREKEY_REFILL_THRESHOLD (locked_rows e) t s)
      as [->| ->]; [done|].
    by apply delete_oldest_ok.
  - destruct (put_keys_prekeys_pg a ks s) as [->|(keys & -> & ->)]; [done|].
    apply (for_of_inv db_ok); [|done].
    intros k0 d0 _ Hd0. by apply insert_on_conflict_ok.
  - destruct (put_keys_signed_pg crypto_sign_verify_detached a e b s)
      as [->|(? & ? & ? & ->)]; [done|].
    by apply upsert_signed_prekey_ok.
Qed.

Lemma run_ok (trace : list (env * request)) (s : state) :
  db_ok (pg s) → db_ok (pg (server_run trace s)).
Proof.
  revert s. induction trace as [|[e r] trace IH]; intros s Hok; [done|].
  cbn [run]. apply IH. by apply step_ok.
Qed.

Lemma reachable_ok (trace : list (env * request)) :
  db_ok (pg (server_run trace empty_state)).
Proof. apply run_ok, db_ok_empty. Qed.

(** X1. Registration uniqueness: in every state the server reaches from
    empty stores, no two accounts share an identifier or a public key, and
    every stored public key is 32 bytes long. *)
Theorem accounts_stay_unique (trace : list (env * request)) :
  let d := pg (server_run trace empty_state) in
  NoDup (acc_id <$> accounts d) ∧
  NoDup (acc_public_key <$> accounts d) ∧
  Forall (λ r, length (acc_public_key r) = 32%nat) (accounts d).
Proof.
  destruct (reachable_ok trace) as (K1 & K2 & K3 & _). by split_and!.
Qed.

(** X2. Referential integrity: in every state the server reaches from
    empty stores, an account has at most one signed prekey, and every
    signed prekey, one-time prekey and queued message belongs to an
    existing account. *)
Theorem rows_refer_to_accounts (trace : list (env * request)) :
  let d := pg (server_run trace empty_state) in
  NoDup (spk_account_id <$> signed_prekeys d) ∧
  (∀ r, r ∈ signed_prekeys d → spk_account_id r ∈ acc_id <$> accounts d) ∧
  (∀ r, r ∈ one_time_prekeys d → otpk_account_id r ∈ acc_id <$> accounts d) ∧
  (∀ r, r ∈ message_queue d → mq_recipient_id r ∈ acc_id <$> accounts d).
Proof.
  destruct (reachable_ok trace)
    as (_ & _ & _ & K4 & K5 & K6 & _ & _ & _ & K10 & _).
  split_and!; [done|..]; intros r Hr.
  - apply K5. by apply list_elem_of_fmap_2.
  - apply K6. by apply list_elem_of_fmap_2.
  - apply K10. by apply list_elem_of_fmap_2.
Qed.

(** X3. Queue bounds: in every state the server reaches from empty stores,
    message identifiers are unique, every queued ciphertext is at most
    262144 bytes long and every tag fits SMALLINT. *)
Theorem queue_rows_bounded (trace : list (env * request)) :
  let d := pg (server_run trace empty_state) in
  NoDup (mq_id <$> message_queue d) ∧
  Forall (λ r, Z.of_nat (length (mq_ciphertext r)) <= 262144 ∧
               -32768 <= mq_message_type r <= 32767)
    (message_queue d).
Proof.
  destruct (reachable_ok trace)
    as (_ & _ & _ & _ & _ & _ & _ & _ & K9 & _ & K11).
  by split.
Qed.

(** ** Send, drain and delete together *)

Lemma unhex_lt (a : ascii) (h : N) : unhex a = Some h → (h < 16)%N.
Proof.
  unfold unhex.
  repeat case_match; intros [= <-]; try done;
    repeat match goal with
           | H : (_ && _) = true |- _ => apply andb_true_iff in H as [? ?]
           | H : (_ <=? _)%N = true |- _ => apply N.leb_le in H
           end; lia.
Qed.

Lemma byte_of_nibbles_to_N (h l : N) :
  (h < 16)%N → (l < 16)%N → Byte.to_N (byte_of_nibbles h l) = (16 * h + l)%N.
Proof.
  intros Hh Hl. unfold byte_of_nibbles.
  destruct (Byte.of_N (16 * h + l)) as [b|] eqn:Hb.
  - by apply Byte.to_of_N.
  - apply Byte.of_N_None_iff in Hb. lia.
Qed.

Lemma hex_encode_decode_pair (a b : ascii) (h l : N) :
  unhex a = Some h → unhex b = Some l →
  hex_digit h = a → hex_digit l = b →
  hex_encode [byte_of_nibbles h l] = String a (String b EmptyString).
Proof.
  intros Ha Hb Hda Hdb. cbn [hex_encode].
  rewrite byte_of_nibbles_to_N by eauto using unhex_lt.
  pose proof (unhex_lt _ _ Ha). pose proof (unhex_lt _ _ Hb).
  replace ((16 * h + l) / 16)%N with h
    by (apply N.div_unique with l; lia).
  replace ((16 * h + l) mod 16)%N with l
    by (apply N.mod_unique with h; lia).
  by rewrite Hda, Hdb.
Qed.

(** Lowercase hexadecimal text survives decoding and encoding. *)
Lemma hex_encode_decode (s : string) :
  lower_hex s → hex_encode (hex_decode s) = s.
Proof.
  enough (∀ n s, (String.length s ≤ n)%nat → lower_hex s →
                 hex_encode (hex_decode s) = s) as Hn by eauto.
  intros n. induction n as [n IH] using lt_wf_ind.
  intros [|a [|b rest]] Hlen; cbn [lower_hex]; [done|done|].
  intros [(h & l & Ha & Hb & Hda & Hdb) Hrest].
  cbn [hex_decode]. rewrite Ha, Hb.
  change (hex_encode (byte_of_nibbles h l :: hex_decode rest))
    with (hex_encode [byte_of_nibbles h l] +:+ hex_encode (hex_decode rest)).
  rewrite (hex_encode_decode_pair a b h l) by done.
  cbn in Hlen. rewrite (IH (String.length rest)); [done|lia|lia|done].
Qed.



Lemma select_messages_other (other : uuid)
    (row : message_queue_row) (d : db) :
  mq_recipient_id row ≠ other →
  select_messages other (set_message_queue (message_queue d ++ [row]) d)
  = select_messages other d.
Proof.
  intros Hne. unfold select_messages. cbn [message_queue set_message_queue].
  rewrite filter_app, filter_cons_False by done.
  by rewrite filter_nil, app_nil_r.
Qed.

(** X5. Send then drain. After a send answered 201, the recipient's drain
    holds the message under the drawn identifier, with the ciphertext in
    lowercase hex and the tag (1 when the request had none), provided the
    recipient had fewer than 100 messages queued; with an empty queue it is
    the only message. A ciphertext sent as lowercase hex comes back as the
    very same text. The drain of every other account is as it was. *)
Theorem send_then_drain (account_id : uuid) (e : env) (b : send_body)
    (s : state) (recipient_id : uuid) (ciphertext : string) :
  status (post_messages_send account_id e b s).1.1 = 201 →
  sb_recipient_id b = Some recipient_id →
  sb_ciphertext b = Some ciphertext →
  let s' := (post_messages_send account_id e b s).2 in
  let sent :=
    {| msg_id := gen_random_uuid e;
       msg_ciphertext := hex_encode (hex_decode ciphertext);
       msg_message_type := default 1 (sb_message_type b) |} in
  ((length (filter (λ r, mq_recipient_id r = recipient_id)
              (message_queue (pg s))) < 100)%nat →
   sent ∈ drained (get_messages_receive recipient_id s').1) ∧
  (filter (λ r, mq_recipient_id r = recipient_id) (message_queue (pg s)) = [] →
   drained (get_messages_receive recipient_id s').1 = [sent]) ∧
  (lower_hex ciphertext → msg_ciphertext sent = ciphertext) ∧
  (∀ other, other ≠ recipient_id →
     (get_messages_receive other s').1 = (get_messages_receive other s).1).
Proof.
  intros H201 Hrid Hct.
  destruct (send_shape account_id e b s)
    as [(_ & _ & Hne)|(rid & ct & Hrid' & Hct' & _ & _ & _ & _ & Heq)];
    [done|].
  rewrite Hrid in Hrid'. rewrite Hct in Hct'.
  injection Hrid' as <-. injection Hct' as <-.
  cbn zeta. rewrite Heq. cbn [snd fst].
  unfold get_messages_receive, drained. cbn [fst json reply pg with_pg].
  split_and!.
  - intros Hlen.
    change {| msg_id := gen_random_uuid e;
              msg_ciphertext := hex_encode (hex_decode ciphertext);
              msg_message_type := default 1 (sb_message_type b) |}
      with (message_of_row
              (sent_row e recipient_id ciphertext (sb_message_type b))).
    apply list_elem_of_fmap_2. unfold select_messages.
    cbn [message_queue set_message_queue].
    rewrite (order_by_limit_all mq_id_le).
    + rewrite filter_app. apply elem_of_app. right.
      rewrite filter_cons_True by done. left.
    + rewrite filter_app, length_app, filter_cons_True by done.
      cbn [length filter]. rewrite filter_nil. cbn. lia.
  - intros Hempty. unfold select_messages.
    cbn [message_queue set_message_queue].
    rewrite filter_app, Hempty, filter_cons_True by done.
    rewrite filter_nil. done.
  - apply hex_encode_decode.
  - intros other Hother. rewrite select_messages_other; [done|].
    cbn. congruence.
Qed.

Lemma filter_app_fresh (id recipient_id : uuid) (rows : list message_queue_row)
    (row : message_queue_row) :
  id ∉ mq_id <$> rows → mq_id row = id → mq_recipient_id row = recipient_id →
  filter (λ r, ¬ (mq_id r = id ∧ mq_recipient_id r = recipient_id))
    (rows ++ [row]) = rows.
Proof.
  intros Hfresh Hid Hrec. rewrite filter_app, filter_cons_False
    by (intros Hn; by apply Hn).
  rewrite filter_nil, app_nil_r. apply filter_all.
  intros r Hr [Hr_id _]. apply Hfresh. rewrite <- Hr_id.
  by apply list_elem_of_fmap_2.
Qed.

(** X6. Send then delete. After a send answered 201, a delete of the drawn
    identifier by the recipient is answered 200 and leaves the stores
    exactly as they were before the send; the same delete once more is
    answered 404; and a delete of that identifier by any other account is
    answered 404 and removes nothing. *)
Theorem send_then_delete (account_id : uuid) (e : env) (b : send_body)
    (s : state) (recipient_id : uuid) :
  status (post_messages_send account_id e b s).1.1 = 201 →
  sb_recipient_id b = Some recipient_id →
  let s1 := (post_messages_send account_id e b s).2 in
  let id := gen_random_uuid e in
  delete_messages_id recipient_id id s1 = (reply 200 deleted_body, s) ∧
  delete_messages_id recipient_id id s
    = (reply 404 (error "message_not_found"), s) ∧
  (∀ other, other ≠ recipient_id →
     delete_messages_id other id s1
       = (reply 404 (error "message_not_found"), s1)).
Proof.
  intros H201 Hrid.
  destruct (send_shape account_id e b s)
    as [(_ & _ & Hne)|(rid & ct & Hrid' & _ & _ & _ & _ & Hfresh & Heq)];
    [done|].
  rewrite Hrid in Hrid'. injection Hrid' as <-.
  cbn zeta. rewrite Heq. cbn [snd].
  assert (∀ a i (s0 : state),
            (∀ r, r ∈ message_queue (pg s0) →
                  ¬ (mq_id r = i ∧ mq_recipient_id r = a)) →
            delete_messages_id a i s0
              = (reply 404 (error "message_not_found"), s0)) as Hmiss.
  { intros a i s0 Hno. unfold delete_messages_id, delete_message.
    rewrite (proj2 (filter_none _ _) Hno). cbn.
    rewrite filter_all by done. by rewrite with_pg_same. }
  split_and!.
  - unfold delete_messages_id, delete_message.
    cbn [pg with_pg message_queue set_message_queue].
    rewrite filter_app, filter_cons_True by done.
    rewrite filter_app_fresh by done.
    destruct (filter _ (message_queue (pg s))); cbn; by destruct s as [[] ?].
  - apply Hmiss. intros r Hr [Hid _]. apply Hfresh. rewrite <- Hid.
    by apply list_elem_of_fmap_2.
  - intros other Hother. apply Hmiss.
    cbn [pg with_pg message_queue set_message_queue].
    intros r [Hr|Hr]%elem_of_app [Hid Hrec].
    + apply Hfresh. rewrite <- Hid. by apply list_elem_of_fmap_2.
    + apply elem_of_cons in Hr as [->|[]%not_elem_of_nil]. by apply Hother.
Qed.

(** ** Register *)

(** X9. A public key registers once. When an account already holds the
    public key of a register request, the stores are left untouched; if
    the request is otherwise well formed (registration id non-zero and
    within INTEGER, key of 32 bytes, signed prekey signature good) the
    answer is 409 [key_already_registered]. *)
Theorem register_twice_conflicts (e : env) (b : register_body)
    (public_key : string) (s : state) :
  rb_public_key b = Some public_key →
  account_exists public_key s →
  (register e b s).2 = s ∧
  status (register e b s).1 ≠ 201 ∧
  (∀ registration_id signed_prekey keys,
     rb_registration_id b = Some registration_id →
     rb_signed_prekey b = Some signed_prekey →
     rb_one_time_prekeys b = Some keys →
     registration_id ≠ 0 →
     in_int4 registration_id →
     length (hex_decode public_key) = 32%nat →
     crypto_sign_verify_detached (hex_decode (spb_signature signed_prekey))
       (hex_decode (spb_public_key signed_prekey)) (hex_decode public_key)
       = Some true →
     (register e b s).1 = reply 409 (error "key_already_registered")).
Proof.
  intros Hpk Hex.
  assert (∀ registration_id signed_prekey keys,
            register_inserts e (hex_decode public_key) registration_id
              signed_prekey keys (pg s) =
            (inl (if decide (in_int4 registration_id)
                  then unique_violation else numeric_value_out_of_range),
             pg s)) as Hins.
  { intros. rewrite register_inserts_eq. unfold insert_account.
    case_decide; [|done]. case_decide; [done|]. by rewrite decide_True. }
  destruct (register_shape e b s)
    as [[Hsame Hne]|(pk & reg & spk & keys & Hpk' & Hreg & Hspk & Hkeys & Hnz
                     & Hlen & Hsig & Heq)].
  - split; [done|]. split; [done|].
    intros registration_id signed_prekey keys Hreg Hspk Hkeys Hnz Hin Hlen
        Hsig.
    unfold post_accounts_register. rewrite Hpk, Hreg, Hspk, Hkeys.
    destruct public_key as [|c public_key]; [done|].
    cbn [truthy_string truthy_number andb].
    rewrite (proj2 (Z.eqb_neq _ _) Hnz). cbn [negb].
    rewrite decide_False by (by intros []).
    rewrite Hsig, Hins, decide_True by done. done.
  - rewrite Hpk in Hpk'. injection Hpk' as <-.
    rewrite Heq, Hins. cbn [fst snd]. rewrite with_pg_pg.
    split; [done|]. split.
    + unfold register_catch. by repeat case_decide.
    + intros registration_id signed_prekey keys' Hreg' _ _ _ Hin _ _.
      rewrite Hreg in Hreg'. injection Hreg' as <-.
      by rewrite decide_True.
Qed.

(** ** Fetch bundle: order and reporting *)

Lemma StronglySorted_lt_NoDup (l : list Z) : StronglySorted Z.lt l → NoDup l.
Proof.
  induction 1 as [|x l Hl IH Hx]; constructor; [|done].
  intros Hin. eapply Forall_forall in Hx; [|exact Hin]. lia.
Qed.

Lemma pool_filter_ne (a : uuid) (h : one_time_prekey_row)
    (rows : list one_time_prekey_row) :
  filter (λ r, otpk_account_id r = a)
    (filter (λ r, otpk_id r ≠ otpk_id h) rows)
  = filter (λ r, otpk_id r ≠ otpk_id h)
      (filter (λ r, otpk_account_id r = a) rows).
Proof.
  rewrite !list_filter_filter. apply list_filter_iff.
  intros x. split; intros [? ?]; by split.
Qed.

Lemma available_pool (locked : gset Z) (a : uuid) (d : db) :
  available locked a d = filter (λ r, otpk_id r ∉ locked) (pool a d).
Proof.
  unfold available, pool. rewrite list_filter_filter.
  apply list_filter_iff. intros x. split; intros [? ?]; by split.
Qed.

Lemma available_unlocked (locked : gset Z) (a : uuid) (d : db) :
  (∀ r, r ∈ pool a d → otpk_id r ∉ locked) → available locked a d = pool a d.
Proof. intros Hfree. rewrite available_pool. by apply filter_all. Qed.

(** The first row a filter keeps splits the list: the rows before it are
    all dropped. *)
Lemma filter_head_split {A} (P : A → Prop) `{∀ x, Decision (P x)}
    (l : list A) (r : A) (t : list A) :
  filter P l = r :: t →
  ∃ l1 l2, l = l1 ++ r :: l2 ∧ Forall (λ x, ¬ P x) l1 ∧ filter P l2 = t.
Proof.
  induction l as [|a l IH]; [done|].
  destruct (decide (P a)) as [Ha|Ha].
  - rewrite filter_cons_True by done. intros [= -> <-].
    by exists [], l.
  - rewrite filter_cons_False by done. intros Hf.
    destruct (IH Hf) as (l1 & l2 & -> & Hl1 & Hl2).
    exists (a :: l1), l2. split; [done|]. split; [|done].
    by constructor.
Qed.

(** The statement of the fetch handler takes the first row of the
    account's pool, in table order, that is not locked, and leaves the
    rest of the pool, and the pools of the other accounts, as they
    were. *)
Lemma delete_oldest_head (locked : gset Z) (target : uuid) (d : db) :
  db_ok d →
  ∃ d',
    delete_oldest_one_time_prekey locked target d
      = (inr (option_list (head (available locked target d))), d') ∧
    match head (available locked target d) with
    | None => d' = d
    | Some r =>
        ∃ l1 l2,
          pool target d = l1 ++ r :: l2 ∧
          pool target d' = l1 ++ l2 ∧
          Forall (λ x, otpk_id x ∈ locked) l1
    end ∧
    (∀ a, a ≠ target → pool a d' = pool a d) ∧
    accounts d' = accounts d ∧
    signed_prekeys d' = signed_prekeys d ∧
    message_queue d' = message_queue d.
Proof.
  intros Hok.
  pose proof Hok as (_ & _ & _ & _ & _ & _ & K7 & _).
  pose proof (StronglySorted_lt_NoDup _ K7) as Hids.
  destruct (delete_oldest_spec locked target d Hids)
    as [[Hpool ->]|(r & Hr & Hmine & Hfree & Hmin & ->)].
  - exists d. rewrite Hpool. by split_and!.
  - assert (r ∈ available locked target d) as Hin
      by (by apply list_elem_of_filter).
    pose proof (StronglySorted_fmap_filter Z.lt otpk_id
                  (λ r, otpk_account_id r = target ∧ otpk_id r ∉ locked)
                  _ K7) as Hsorted.
    fold (available locked target d) in Hsorted.
    assert (∃ t, available locked target d = r :: t) as [t Havail].
    { destruct (available locked target d) as [|h t] eqn:Havail;
        [by apply not_elem_of_nil in Hin|].
      exists t. f_equal.
      apply elem_of_cons in Hin as [->|Hin]; [done|].
      rewrite fmap_cons in Hsorted.
      apply StronglySorted_cons in Hsorted as [Hlt _].
      assert (otpk_id h < otpk_id r) as Hhr.
      { eapply Forall_forall in Hlt; [exact Hlt|].
        by apply list_elem_of_fmap_2. }
      assert (h ∈ available locked target d) as Hh by (rewrite Havail; left).
      apply list_elem_of_filter in Hh as [[Hh_acc Hh_free] Hh].
      pose proof (Hmin h Hh Hh_acc Hh_free). lia. }
    pose proof Havail as Hsplit. rewrite available_pool in Hsplit.
    apply filter_head_split in Hsplit as (l1 & l2 & Hpool & Hl1 & _).
    pose proof (StronglySorted_fmap_filter Z.lt otpk_id
                  (λ r, otpk_account_id r = target) _ K7) as Hpsorted.
    fold (pool target d) in Hpsorted.
    apply StronglySorted_lt_NoDup in Hpsorted.
    rewrite Hpool, fmap_app, fmap_cons in Hpsorted.
    apply NoDup_app in Hpsorted as (_ & Hl1r & [Hrl2 _]%NoDup_cons).
    eexists. split; [by rewrite Havail|]. rewrite Havail. cbn [head].
    split_and!; try reflexivity.
    + exists l1, l2. split; [done|]. split.
      * unfold pool at 1.
        cbn [one_time_prekeys set_one_time_prekeys].
        rewrite pool_filter_ne. fold (pool target d). rewrite Hpool.
        rewrite filter_app, filter_cons_False by (by intros []).
        f_equal; apply filter_all; intros x Hx Heq.
        -- apply (Hl1r (otpk_id x)); [by apply list_elem_of_fmap_2|].
           rewrite Heq. left.
        -- apply Hrl2. rewrite <- Heq. by apply list_elem_of_fmap_2.
      * eapply Forall_impl; [exact Hl1|]. intros x Hx. cbn in Hx.
        destruct (decide (otpk_id x ∈ locked)); [done|by destruct Hx].
    + intros a Ha. unfold pool.
      cbn [one_time_prekeys set_one_time_prekeys].
      rewrite pool_filter_ne. apply filter_all.
      intros x [Hx_acc Hx]%list_elem_of_filter Heq.
      apply Ha. rewrite <- Hx_acc, <- Hmine. f_equal.
      by apply (NoDup_fmap_eq otpk_id (one_time_prekeys d)).
Qed.

(** With no row of the pool locked, the statement takes the head of the
    pool and leaves its tail. *)
Lemma delete_oldest_head_unlocked (locked : gset Z) (target : uuid)
    (d : db) :
  db_ok d →
  (∀ r, r ∈ pool target d → otpk_id r ∉ locked) →
  ∃ d',
    delete_oldest_one_time_prekey locked target d
      = (inr (option_list (head (pool target d))), d') ∧
    pool target d' = tail (pool target d).
Proof.
  intros Hok Hfree.
  destruct (delete_oldest_head locked target d Hok)
    as (d' & Hdel & Hpool & _).
  rewrite (available_unlocked _ _ _ Hfree) in Hdel, Hpool.
  exists d'. split; [done|].
  destruct (pool target d) as [|h t] eqn:Hp; cbn [head tail] in *.
  - by rewrite Hpool, Hp.
  - destruct Hpool as (l1 & l2 & Heq & -> & Hl1).
    destruct l1 as [|y l1]; [by injection Heq as <-|].
    injection Heq as <- _. apply Forall_cons in Hl1 as [Hy _].
    destruct (Hfree h); [left|done].
Qed.

Lemma keys_get_eq (locked : gset Z) (target : uuid) (s : state)
    (account : account_row) (accounts' : list account_row)
    (spk : signed_prekey_row) (spks : list signed_prekey_row) (d' : db)
    (taken : option one_time_prekey_row) :
  select_account_by_id target (pg s) = account :: accounts' →
  select_signed_prekey target (pg s) = spk :: spks →
  delete_oldest_one_time_prekey locked target (pg s)
    = (inr (option_list taken), d') →
  keys_get locked target s =
    (reply 200
       (bundle_body
          {| bundle_registration_id := acc_registration_id account;
             bundle_identity_key := hex_encode (acc_public_key account);
             bundle_signed_prekey :=
               ({| pk_key_id := spk_key_id spk;
                   pk_public_key := hex_encode (spk_public_key spk) |},
                hex_encode (spk_signature spk));
             bundle_one_time_prekey := prekey_of_row <$> taken |}
          (Z.of_nat (length (pool target d')))
          (bool_decide (Z.of_nat (length (pool target d'))
                        < default 10 PREKEY_REFILL_THRESHOLD))),
     with_pg s d').
Proof.
  intros Hacc Hspk Hdel. unfold get_keys_account_id.
  rewrite Hacc, Hspk, Hdel. by destruct taken.
Qed.

(** X10. Prekeys leave in upload order. In a state that keeps the table
    constraints, a fetch for an account with a signed prekey, with no
    statement of another request committed between its own, is answered
    200 with the first row of the account's pool in table order that no
    statement in flight holds locked (rows are appended on upload, and
    their identifiers grow along the table), or with null when the pool
    is empty or all of it is locked. The pool keeps its other rows in
    order, the rows ahead of the returned one being the locked ones; the
    pools of other accounts are untouched; [prekey_count] is the number of
    rows the pool has left, locked ones included, and
    [needs_prekey_refresh] tells whether that number is below the
    threshold (10 unless configured). When no row of the pool is locked,
    the returned row is the first of the pool and the pool is left with
    its tail. *)
Theorem fetch_in_upload_order (locked : gset Z) (target : uuid) (s : state) :
  db_ok (pg s) →
  target ∈ acc_id <$> accounts (pg s) →
  target ∈ spk_account_id <$> signed_prekeys (pg s) →
  let res := (keys_get locked target s).1 in
  let s' := (keys_get locked target s).2 in
  let left := Z.of_nat (length (pool target (pg s'))) in
  StronglySorted Z.lt (otpk_id <$> pool target (pg s)) ∧
  returned_prekey res
    = prekey_of_row <$> head (available locked target (pg s)) ∧
  match head (available locked target (pg s)) with
  | None => s' = s
  | Some r =>
      ∃ l1 l2,
        pool target (pg s) = l1 ++ r :: l2 ∧
        pool target (pg s') = l1 ++ l2 ∧
        Forall (λ x, otpk_id x ∈ locked) l1
  end ∧
  (∀ a, a ≠ target → pool a (pg s') = pool a (pg s)) ∧
  (∃ b, res = reply 200
                (bundle_body b left
                   (bool_decide (left < default 10 PREKEY_REFILL_THRESHOLD)))) ∧
  ((∀ r, r ∈ pool target (pg s) → otpk_id r ∉ locked) →
   returned_prekey res = prekey_of_row <$> head (pool target (pg s)) ∧
   pool target (pg s') = tail (pool target (pg s))).
Proof.
  intros Hok Hacc Hspk.
  destruct (select_account_by_id_cons _ _ Hacc) as (acc & ? & Hsel1).
  destruct (select_signed_prekey_cons _ _ Hspk) as (spk & ? & Hsel2).
  destruct (delete_oldest_head locked target (pg s) Hok)
    as (d' & Hdel & Hpool & Hothers & _).
  cbn zeta. rewrite (keys_get_eq _ _ _ _ _ _ _ _ _ Hsel1 Hsel2 Hdel).
  cbn [fst snd pg with_pg].
  split_and!; try done.
  - destruct Hok as (_ & _ & _ & _ & _ & _ & K7 & _).
    by apply StronglySorted_fmap_filter.
  - destruct (head (available locked target (pg s))); [done|].
    rewrite Hpool. apply with_pg_pg.
  - by eexists.
  - intros Hfree. rewrite (available_unlocked _ _ _ Hfree). split; [done|].
    destruct (delete_oldest_head_unlocked locked target (pg s) Hok Hfree)
      as (d2 & Hdel2 & Hpool2).
    rewrite Hdel in Hdel2. by injection Hdel2 as _ ->.
Qed.

(** X11. A fetch that finds no account, or an account without a signed
    prekey, is answered 404 ([account_not_found], [no_signed_prekey]) and
    consumes nothing. *)
Theorem fetch_not_found_consumes_nothing (locked : gset Z) (target : uuid)
    (s : state) :
  (target ∉ acc_id <$> accounts (pg s) →
   keys_get locked target s = (reply 404 (error "account_not_found"), s)) ∧
  (target ∈ acc_id <$> accounts (pg s) →
   target ∉ spk_account_id <$> signed_prekeys (pg s) →
   keys_get locked target s = (reply 404 (error "no_signed_prekey"), s)).
Proof.
  split.
  - intros Hno. unfold get_keys_account_id.
    assert (select_account_by_id target (pg s) = []) as ->; [|done].
    apply filter_none. intros r Hr Hid. apply Hno. rewrite <- Hid.
    by apply list_elem_of_fmap_2.
  - intros Hacc Hno. unfold get_keys_account_id.
    destruct (select_account_by_id_cons _ _ Hacc) as (acc & ? & ->).
    assert (select_signed_prekey target (pg s) = []) as ->; [|done].
    apply filter_none. intros r Hr Hid. apply Hno. rewrite <- Hid.
    by apply list_elem_of_fmap_2.
Qed.

(** ** Rotating the signed prekey *)

Lemma rotate_shape (account_id : uuid) (e : env) (b : signed_body)
    (s : state) :
  ((keys_put_signed account_id e b s).2 = s ∧
   status (keys_put_signed account_id e b s).1 ≠ 200) ∨
  (∃ key_id public_key signature row rows,
     gb_key_id b = Some key_id ∧
     gb_public_key b = Some public_key ∧
     gb_signature b = Some signature ∧
     key_id ≠ 0 ∧ in_int4 key_id ∧
     select_account_by_id account_id (pg s) = row :: rows ∧
     crypto_sign_verify_detached (hex_decode signature)
       (hex_decode public_key) (acc_public_key row) = Some true ∧
     keys_put_signed account_id e b s =
       (reply 200 updated_body,
        with_pg s
          (upsert_signed_prekey (now e) account_id key_id
             (hex_decode public_key) (hex_decode signature) (pg s)).2)).
Proof.
  unfold put_keys_signed.
  destruct (gb_key_id b) as [key_id|]; [|by left].
  destruct (gb_public_key b) as [public_key|]; [|by left].
  destruct (gb_signature b) as [signature|]; [|by left].
  destruct (truthy_number (Some key_id)) eqn:Hkey; [|by left].
  destruct (_ && _); [|by left].
  destruct (select_account_by_id account_id (pg s)) as [|row rows] eqn:Hsel;
    [by left|].
  destruct (crypto_sign_verify_detached _ _ _) as [[]|] eqn:Hsig;
    [|by left..].
  assert (account_id ∈ acc_id <$> accounts (pg s)) as Hacc.
  { assert (row ∈ select_account_by_id account_id (pg s)) as Hrow
      by (rewrite Hsel; left).
    apply list_elem_of_filter in Hrow as [<- Hrow].
    by apply list_elem_of_fmap_2. }
  destruct (decide (in_int4 key_id)) as [Hint|Hint].
  2: { left. unfold upsert_signed_prekey. rewrite decide_False by done.
       by rewrite with_pg_pg. }
  right. exists key_id, public_key, signature, row, rows.
  split_and!; try done.
  - intros ->. done.
  - assert ((upsert_signed_prekey (now e) account_id key_id
               (hex_decode public_key) (hex_decode signature) (pg s)).1
            = inr tt) as Hup.
    { unfold upsert_signed_prekey. rewrite decide_True by done.
      case_decide; [done|]. by rewrite decide_True. }
    destruct (upsert_signed_prekey _ _ _ _ _ _) as [[err|[]] d'];
      by cbn in *.
Qed.

(** X12. Rotation is bound to the stored identity key. Unless a rotation
    is answered 200 the stores are untouched. A rotation answered 200
    carried a non-zero key id, and its signature over the new public key
    verified under the identity key stored for the authenticated account.
    A request with key id 0 is answered 400 [missing_fields]. *)
Theorem rotate_needs_identity_signature (account_id : uuid) (e : env)
    (b : signed_body) (s : state) :
  let res := (keys_put_signed account_id e b s).1 in
  let s' := (keys_put_signed account_id e b s).2 in
  (status res ≠ 200 → s' = s) ∧
  (status res = 200 →
     ∃ key_id public_key signature row,
       gb_key_id b = Some key_id ∧
       gb_public_key b = Some public_key ∧
       gb_signature b = Some signature ∧
       key_id ≠ 0 ∧
       row ∈ accounts (pg s) ∧ acc_id row = account_id ∧
       crypto_sign_verify_detached (hex_decode signature)
         (hex_decode public_key) (acc_public_key row) = Some true) ∧
  (gb_key_id b = Some 0 → res = reply 400 (error "missing_fields")).
Proof.
  cbn zeta. split_and!.
  - intros Hne.
    destruct (rotate_shape account_id e b s)
      as [[? _]|(? & ? & ? & ? & ? & _ & _ & _ & _ & _ & _ & _ & Heq)];
      [done|].
    rewrite Heq in Hne. by destruct Hne.
  - intros H200.
    destruct (rotate_shape account_id e b s)
      as [[_ Hne]|(key_id & pk & sig & row & rows & ? & ? & ? & ? & _
                   & Hsel & ? & _)]; [done|].
    exists key_id, pk, sig, row.
    assert (row ∈ select_account_by_id account_id (pg s)) as Hrow
      by (rewrite Hsel; left).
    apply list_elem_of_filter in Hrow as [? ?]. by split_and!.
  - intros Hzero. unfold put_keys_signed. rewrite Hzero.
    by repeat case_match.
Qed.

Lemma delete_oldest_inr (locked : gset Z) (account_id : uuid) (d : db) :
  ∃ taken d',
    delete_oldest_one_time_prekey locked account_id d = (inr taken, d').
Proof.
  unfold delete_oldest_one_time_prekey.
  destruct (select_oldest_one_time_prekey locked account_id d);
    by eexists _, _.
Qed.

Lemma select_after_upsert (now0 : Z) (account_id : uuid) (key_id : Z)
    (public_key signature : bytes) (d : db) :
  in_int4 key_id →
  account_id ∈ acc_id <$> accounts d →
  ∃ r rs,
    select_signed_prekey account_id
      (upsert_signed_prekey now0 account_id key_id public_key signature d).2
    = r :: rs ∧
    spk_key_id r = key_id ∧ spk_public_key r = public_key ∧
    spk_signature r = signature.
Proof.
  intros Hint Hacc. unfold upsert_signed_prekey.
  rewrite decide_True by done.
  destruct (decide (account_id ∈ spk_account_id <$> signed_prekeys d))
    as [Hin|Hout]; cbn [snd].
  - match goal with
    | |- context [set_signed_prekeys ?rows' ?seq d] =>
        assert (account_id ∈ spk_account_id <$>
                  signed_prekeys (set_signed_prekeys rows' seq d)) as Hin'
          by (cbn [signed_prekeys set_signed_prekeys];
              by rewrite upsert_accounts);
        destruct (select_signed_prekey_cons _ _ Hin') as (r & rs & Hsel)
    end.
    exists r, rs. split; [done|].
    assert (r ∈ r :: rs) as Hr by left. rewrite <- Hsel in Hr.
    apply list_elem_of_filter in Hr as [Hr_acc Hr].
    cbn [signed_prekeys set_signed_prekeys] in Hr.
    apply list_elem_of_fmap in Hr as (y & -> & _).
    case_decide as Hy; [done|]. by destruct Hy.
  - rewrite decide_True by done.
    unfold select_signed_prekey. cbn [snd signed_prekeys set_signed_prekeys].
    rewrite filter_app, filter_cons_True by done.
    assert (filter (λ r, spk_account_id r = account_id) (signed_prekeys d)
            = []) as ->.
    { apply filter_none. intros r Hr Hid. apply Hout. rewrite <- Hid.
      by apply list_elem_of_fmap_2. }
    by eexists _, _.
Qed.

(** X13. Rotate then fetch. After a rotation answered 200, the next fetch
    of the account's bundle, whatever rows it finds locked, carries the
    new signed prekey: the key id of the request, and its public key and
    signature in lowercase hex. The rotation leaves accounts, one-time
    prekeys, the queue and Redis as they were. *)
Theorem rotate_then_fetch (account_id : uuid) (e : env) (b : signed_body)
    (s : state) (key_id : Z) (public_key signature : string)
    (locked : gset Z) :
  status (keys_put_signed account_id e b s).1 = 200 →
  gb_key_id b = Some key_id →
  gb_public_key b = Some public_key →
  gb_signature b = Some signature →
  let s1 := (keys_put_signed account_id e b s).2 in
  returned_signed_prekey (keys_get locked account_id s1).1
    = Some ({| pk_key_id := key_id;
               pk_public_key := hex_encode (hex_decode public_key) |},
            hex_encode (hex_decode signature)) ∧
  accounts (pg s1) = accounts (pg s) ∧
  one_time_prekeys (pg s1) = one_time_prekeys (pg s) ∧
  message_queue (pg s1) = message_queue (pg s) ∧
  redis s1 = redis s.
Proof.
  intros H200 Hkey Hpk Hsig.
  destruct (rotate_shape account_id e b s)
    as [[_ Hne]|(key_id' & pk' & sig' & row & rows & Hkey' & Hpk' & Hsig' & _
                 & Hint & Hsel & _ & Heq)]; [done|].
  rewrite Hkey in Hkey'. rewrite Hpk in Hpk'. rewrite Hsig in Hsig'.
  injection Hkey' as <-. injection Hpk' as <-. injection Hsig' as <-.
  assert (account_id ∈ acc_id <$> accounts (pg s)) as Hacc.
  { assert (row ∈ select_account_by_id account_id (pg s)) as Hrow
      by (rewrite Hsel; left).
    apply list_elem_of_filter in Hrow as [<- Hrow].
    by apply list_elem_of_fmap_2. }
  destruct (select_after_upsert (now e) account_id key_id
              (hex_decode public_key) (hex_decode signature) (pg s) Hint Hacc)
    as (r & rs & Hspk & Hr1 & Hr2 & Hr3).
  cbn zeta. rewrite Heq. cbn [snd pg with_pg redis].
  assert (accounts
            (upsert_signed_prekey (now e) account_id key_id
               (hex_decode public_key) (hex_decode signature) (pg s)).2
          = accounts (pg s) ∧
          one_time_prekeys
            (upsert_signed_prekey (now e) account_id key_id
               (hex_decode public_key) (hex_decode signature) (pg s)).2
          = one_time_prekeys (pg s) ∧
          message_queue
            (upsert_signed_prekey (now e) account_id key_id
               (hex_decode public_key) (hex_decode signature) (pg s)).2
          = message_queue (pg s)) as (Ha & Ho & Hm).
  { unfold upsert_signed_prekey. by repeat case_decide. }
  split_and!; try done.
  unfold get_keys_account_id, select_account_by_id. cbn [pg with_pg].
  rewrite Ha. fold (select_account_by_id account_id (pg s)).
  rewrite Hsel, Hspk.
  destruct (delete_oldest_inr locked account_id
              (upsert_signed_prekey (now e) account_id key_id
                 (hex_decode public_key) (hex_decode signature) (pg s)).2)
    as (taken & d' & ->).
  cbn. by rewrite Hr1, Hr2, Hr3.
Qed.

(** ** Cleanup *)

(** X14. Cleanup removes what has expired and nothing else. After
    [cleanup_expired_data] at instant [now], the queue and the revocation
    table hold exactly the rows that expire at [now] or later, in their
    order, and the other tables are untouched. Running it again at a later
    instant gives the same result as running it once at the later
    instant; running it twice at the same instant changes nothing more. *)
Theorem cleanup_removes_exactly_expired (now1 now2 : Z) (d : db)
    (revoked_tokens : list revoked_token_row) :
  let d1 := (cleanup_expired_data now1 d revoked_tokens).1 in
  let revoked1 := (cleanup_expired_data now1 d revoked_tokens).2 in
  (∀ r, r ∈ message_queue d1 ↔ r ∈ message_queue d ∧ now1 <= mq_expires_at r) ∧
  (∀ r, r ∈ revoked1 ↔ r ∈ revoked_tokens ∧ now1 <= rt_expires_at r) ∧
  message_queue d1 `sublist_of` message_queue d ∧
  accounts d1 = accounts d ∧
  signed_prekeys d1 = signed_prekeys d ∧
  one_time_prekeys d1 = one_time_prekeys d ∧
  (now1 <= now2 →
   cleanup_expired_data now2 d1 revoked1
   = cleanup_expired_data now2 d revoked_tokens) ∧
  cleanup_expired_data now1 d1 revoked1 = (d1, revoked1).
Proof.
  assert (∀ t1 t2, t1 <= t2 →
            cleanup_expired_data t2 (cleanup_expired_data t1 d revoked_tokens).1
              (cleanup_expired_data t1 d revoked_tokens).2
            = cleanup_expired_data t2 d revoked_tokens) as Hcomp.
  { intros t1 t2 Hle. unfold cleanup_expired_data.
    cbn [fst snd message_queue set_message_queue].
    rewrite !list_filter_filter. f_equal.
    - change (set_message_queue ?x (set_message_queue ?y d))
        with (set_message_queue x d).
      f_equal. apply list_filter_iff. intros r. lia.
    - apply list_filter_iff. intros r. lia. }
  cbn zeta. split_and!; try done.
  - intros r. unfold cleanup_expired_data.
    cbn [fst message_queue set_message_queue].
    rewrite list_elem_of_filter. split; intros [? ?]; split; try done; lia.
  - intros r. unfold cleanup_expired_data. cbn [snd].
    rewrite list_elem_of_filter. split; intros [? ?]; split; try done; lia.
  - apply sublist_filter.
  - by apply Hcomp.
  - rewrite Hcomp by lia. unfold cleanup_expired_data. done.
Qed.

Lemma filter_comm {A} (P Q : A → Prop) `{∀ x, Decision (P x)}
    `{∀ x, Decision (Q x)} (l : list A) :
  filter P (filter Q l) = filter Q (filter P l).
Proof.
  rewrite !list_filter_filter. apply list_filter_iff.
  intros x. split; intros [? ?]; by split.
Qed.

(** X15. A message is kept for 30 days. After a send answered 201 at
    instant [now], a cleanup run at or before [now] plus 30 days leaves the
    message in the recipient's drain (when the recipient had fewer than
    100 messages queued); a cleanup run later than that removes it from
    every drain. *)
Theorem sent_message_kept_for_ttl (account_id : uuid) (e : env)
    (b : send_body) (s : state) (recipient_id : uuid) (T : Z)
    (revoked_tokens : list revoked_token_row) :
  status (post_messages_send account_id e b s).1.1 = 201 →
  sb_recipient_id b = Some recipient_id →
  let s1 := (post_messages_send account_id e b s).2 in
  let s2 := with_pg s1 (cleanup_expired_data T (pg s1) revoked_tokens).1 in
  (T <= now e + 30 * 24 * 60 * 60 * 1000 →
   (length (filter (λ r, mq_recipient_id r = recipient_id)
              (message_queue (pg s))) < 100)%nat →
   gen_random_uuid e ∈ drained_ids (get_messages_receive recipient_id s2).1) ∧
  (now e + 30 * 24 * 60 * 60 * 1000 < T →
   ∀ a, gen_random_uuid e ∉ drained_ids (get_messages_receive a s2).1).
Proof.
  intros H201 Hrid.
  destruct (send_shape account_id e b s)
    as [(_ & _ & Hne)|(rid & ct & Hrid' & _ & _ & _ & _ & Hfresh & Heq)];
    [done|].
  rewrite Hrid in Hrid'. injection Hrid' as <-.
  cbn zeta. rewrite Heq. cbn [snd pg with_pg].
  unfold get_messages_receive, drained_ids, cleanup_expired_data.
  cbn [fst json reply pg with_pg].
  set (row := sent_row e recipient_id ct (sb_message_type b)).
  split.
  - intros Hlive Hlen.
    change (gen_random_uuid e) with (msg_id (message_of_row row)).
    apply list_elem_of_fmap_2, list_elem_of_fmap_2.
    unfold select_messages. cbn [message_queue set_message_queue].
    rewrite (order_by_limit_all mq_id_le).
    + apply list_elem_of_filter. split; [done|].
      apply list_elem_of_filter. split.
      * cbn. unfold message_ttl. lia.
      * apply elem_of_app. right. left.
    + rewrite filter_comm.
      etrans; [apply length_filter|].
      rewrite filter_app, length_app, filter_cons_True by done.
      rewrite filter_nil. cbn [length]. lia.
  - intros Hlate a Hin.
    apply list_elem_of_fmap in Hin as (m & Hid & Hm).
    apply list_elem_of_fmap in Hm as (r & -> & Hr).
    apply order_by_limit_elem_of in Hr.
    cbn [message_queue set_message_queue] in Hr.
    apply list_elem_of_filter in Hr as [_ Hr].
    apply list_elem_of_filter in Hr as [Hlive Hr].
    cbn in Hid.
    apply elem_of_app in Hr as [Hr|Hr].
    + apply Hfresh. rewrite Hid. by apply list_elem_of_fmap_2.
    + apply elem_of_cons in Hr as [->|[]%not_elem_of_nil].
      cbn in Hlive. unfold message_ttl in Hlive. lia.
Qed.

(** ** Replenish: bounds and failures *)

(** X16. The bounds of replenish. The answer is 400 exactly when the
    array is absent, empty or longer than 200: [missing_prekeys] in the
    first two cases, [too_many_prekeys] in the third; the stores are then
    untouched. *)
Theorem replenish_bounds (account_id : uuid)
    (keys : option (list one_time_prekey_body)) (s : state) :
  let res := (put_keys_prekeys account_id keys s).1 in
  let s' := (put_keys_prekeys account_id keys s).2 in
  (keys = None ∨ keys = Some [] → res = reply 400 (error "missing_prekeys")) ∧
  (∀ ks, keys = Some ks → (200 < length ks)%nat →
         res = reply 400 (error "too_many_prekeys")) ∧
  (status res = 400 →
   s' = s ∧
   (keys = None ∨ keys = Some [] ∨
    ∃ ks, keys = Some ks ∧ (200 < length ks)%nat)).
Proof.
  cbn zeta. unfold put_keys_prekeys. split_and!.
  - by intros [-> | ->].
  - intros ks -> Hlen. destruct ks as [|k ks]; [cbn in Hlen; lia|].
    by rewrite decide_True.
  - destruct keys as [[|k ks]|]; [by auto| |by auto].
    case_decide as Hlen; [by eauto 6|].
    by destruct (for_of _ _ _) as [[err|[]] d'].
Qed.

Lemma replenish_loop_app (account_id : uuid)
    (pre post : list one_time_prekey_body) (d : db) :
  replenish_loop account_id (pre ++ post) d =
    match replenish_loop account_id pre d with
    | (inl err, d1) => (inl err, d1)
    | (inr _, d1) => replenish_loop account_id post d1
    end.
Proof.
  revert d. induction pre as [|k pre IH]; intros d; [done|].
  cbn [app]. rewrite !replenish_loop_cons.
  destruct (insert_one_time_prekey_on_conflict_do_nothing _ _ _ d)
    as [[err|[]] d1]; [done|]. apply IH.
Qed.

(** X17. Replenish is not all-or-nothing. When a key of the array has an
    identifier outside INTEGER, the answer is 500 [internal_error]; the
    keys before it have been upserted and stay stored, the keys after it
    are never looked at. *)
Theorem replenish_stops_at_bad_key (account_id : uuid)
    (pre post : list one_time_prekey_body) (bad : one_time_prekey_body)
    (s : state) :
  account_id ∈ acc_id <$> accounts (pg s) →
  Forall (λ k, in_int4 (opb_key_id k)) pre →
  ¬ in_int4 (opb_key_id bad) →
  (length (pre ++ bad :: post) ≤ 200)%nat →
  let res := (put_keys_prekeys account_id (Some (pre ++ bad :: post)) s).1 in
  let s' := (put_keys_prekeys account_id (Some (pre ++ bad :: post)) s).2 in
  res = reply 500 (error "internal_error") ∧
  pg s' = (replenish_loop account_id pre (pg s)).2 ∧
  (∀ k, k ∈ pre →
     (account_id, opb_key_id k) ∈ otpk_pair <$> one_time_prekeys (pg s')).
Proof.
  intros Hacc Hpre Hbad Hlen.
  destruct (replenish_loop_spec account_id pre (pg s) Hacc Hpre)
    as (added & Hrun & _ & Hall & _).
  assert (put_keys_prekeys account_id (Some (pre ++ bad :: post)) s =
          (reply 500 (error "internal_error"),
           with_pg s (replenish_loop account_id pre (pg s)).2)) as Heq.
  { unfold put_keys_prekeys.
    destruct (pre ++ bad :: post) as [|k ks] eqn:Hks;
      [by destruct pre|].
    rewrite decide_False by lia. rewrite <- Hks.
    fold (replenish_loop account_id (pre ++ bad :: post)).
    rewrite replenish_loop_app, Hrun, replenish_loop_cons.
    unfold insert_one_time_prekey_on_conflict_do_nothing.
    by rewrite decide_False. }
  cbn zeta. rewrite Heq. cbn [fst snd pg with_pg].
  split; [done|]. split; [done|].
  rewrite Hrun. exact Hall.
Qed.

(** ** Register then fetch *)

Lemma pool_otpk_rows (a : uuid) (seq : Z) (keys : list one_time_prekey_body) :
  filter (λ r, otpk_account_id r = a) (otpk_rows a seq keys)
  = otpk_rows a seq keys.
Proof.
  apply filter_all. revert seq.
  induction keys as [|k keys IH]; intros seq r Hr;
    [by apply not_elem_of_nil in Hr|].
  cbn in Hr. apply elem_of_cons in Hr as [->|Hr]; [done|by eapply IH].
Qed.

Lemma length_otpk_rows (a : uuid) (seq : Z)
    (keys : list one_time_prekey_body) :
  length (otpk_rows a seq keys) = length keys.
Proof.
  revert seq. induction keys as [|k keys IH]; intros seq; [done|].
  cbn. by rewrite IH.
Qed.

(** X18. Register then fetch. In a state that keeps the table constraints,
    a register answered 201 returns the drawn identifier, and the next
    fetch for it, which finds none of the new account's one-time prekeys
    locked, is answered 200 with what was registered: the registration
    id, the identity key and the signed prekey in lowercase hex, the first
    one-time prekey of the request (null if it had none), and a count of
    the remaining ones. *)
Theorem register_then_fetch (e : env) (b : register_body) (s : state)
    (public_key : string) (registration_id : Z)
    (signed_prekey : signed_prekey_body) (keys : list one_time_prekey_body)
    (locked : gset Z) :
  db_ok (pg s) →
  status (register e b s).1 = 201 →
  rb_public_key b = Some public_key →
  rb_registration_id b = Some registration_id →
  rb_signed_prekey b = Some signed_prekey →
  rb_one_time_prekeys b = Some keys →
  let s1 := (register e b s).2 in
  let left := Z.of_nat (length (tail keys)) in
  (∀ r, r ∈ pool (gen_random_uuid e) (pg s1) → otpk_id r ∉ locked) →
  (register e b s).1 = reply 201 (account_id_body (gen_random_uuid e)) ∧
  (keys_get locked (gen_random_uuid e) s1).1 =
    reply 200
      (bundle_body
         {| bundle_registration_id := registration_id;
            bundle_identity_key := hex_encode (hex_decode public_key);
            bundle_signed_prekey :=
              ({| pk_key_id := spb_key_id signed_prekey;
                  pk_public_key :=
                    hex_encode (hex_decode (spb_public_key signed_prekey)) |},
               hex_encode (hex_decode (spb_signature signed_prekey)));
            bundle_one_time_prekey :=
              (λ k, {| pk_key_id := opb_key_id k;
                       pk_public_key :=
                         hex_encode (hex_decode (opb_public_key k)) |})
                <$> head keys |}
         left
         (bool_decide (left < default 10 PREKEY_REFILL_THRESHOLD))).
Proof.
  intros Hok H201 Hpk Hreg Hspk Hkeys.
  destruct (register_shape e b s)
    as [[_ Hne]|(pk & reg & spk & ks & Hpk' & Hreg' & Hspk' & Hkeys' & _
                 & Hlen & _ & Heq)]; [done|].
  rewrite Hpk in Hpk'. rewrite Hreg in Hreg'. rewrite Hspk in Hspk'.
  rewrite Hkeys in Hkeys'.
  injection Hpk' as <-. injection Hreg' as <-. injection Hspk' as <-.
  injection Hkeys' as <-.
  pose proof (register_inserts_ok e (hex_decode public_key) registration_id
                signed_prekey keys (pg s) Hlen Hok) as Hok1.
  pose proof (register_inserts_spec e (hex_decode public_key) registration_id
                signed_prekey keys (pg s)) as Hspec.
  cbn zeta in Hspec. rewrite Heq in H201 |- *. cbn [fst snd] in *.
  destruct (register_inserts e (hex_decode public_key) registration_id
              signed_prekey keys (pg s)) as [[err|a] d1]; cbn [fst snd] in *.
  { unfold register_catch in H201. by case_decide. }
  cbn [pg with_pg]. intros Hfree.
  destruct Hspec
    as [_ [[_ [? [=]]]|[Hacc [(_ & _ & ? & [=])|(Hspk1 & n & Hotpk & Hr)]]]].
  destruct Hr as [[? [=]]|[[= ->] ->]].
  rewrite firstn_all in Hotpk.
  split; [done|].
  pose proof Hok as (_ & _ & _ & _ & _ & K6 & _).
  pose proof Hok1 as (K1 & _ & _ & K4 & _).
  rewrite Hacc, fmap_app in K1. apply NoDup_app in K1 as (_ & Hnew & _).
  rewrite Hspk1, fmap_app in K4. apply NoDup_app in K4 as (_ & Hnew_spk & _).
  assert (gen_random_uuid e ∉ acc_id <$> accounts (pg s)) as Hfresh.
  { intros Hin. apply (Hnew _ Hin). left. }
  assert (select_account_by_id (gen_random_uuid e) d1
          = [account_row_of e (hex_decode public_key) registration_id])
    as Hsel1.
  { unfold select_account_by_id. rewrite Hacc, filter_app.
    rewrite filter_cons_True by done. rewrite filter_nil.
    rewrite (proj2 (filter_none _ _)); [done|].
    intros r Hr Hid. apply Hfresh. rewrite <- Hid.
    by apply list_elem_of_fmap_2. }
  assert (select_signed_prekey (gen_random_uuid e) d1
          = [signed_prekey_row_of e (signed_prekeys_id_seq (pg s))
               signed_prekey]) as Hsel2.
  { unfold select_signed_prekey. rewrite Hspk1, filter_app.
    rewrite filter_cons_True by done. rewrite filter_nil.
    rewrite (proj2 (filter_none _ _)); [done|].
    intros r Hr Hid. apply (Hnew_spk (spk_account_id r)).
    - by apply list_elem_of_fmap_2.
    - rewrite Hid. left. }
  assert (pool (gen_random_uuid e) d1
          = otpk_rows (gen_random_uuid e) (one_time_prekeys_id_seq (pg s))
              keys) as Hpool.
  { unfold pool. rewrite Hotpk, filter_app, pool_otpk_rows.
    rewrite (proj2 (filter_none _ _)); [done|].
    intros r Hr Hid. apply Hfresh. rewrite <- Hid. apply K6.
    by apply list_elem_of_fmap_2. }
  destruct (delete_oldest_head_unlocked locked (gen_random_uuid e) d1 Hok1
              Hfree)
    as (d' & Hdel & Hpool').
  rewrite (keys_get_eq _ _ (with_pg s d1) _ _ _ _ _ _ Hsel1 Hsel2 Hdel).
  cbn [fst]. rewrite Hpool', Hpool.
  destruct keys as [|k keys]; [done|].
  cbn [otpk_rows head tail fmap option_fmap option_map length].
  by rewrite length_otpk_rows.
Qed.

(** ** What the handlers leave alone *)

Lemma step_connections (e : env) (r : request) (s : state) :
  connections (server_step e r s).2 = connections s.
Proof.
  destruct r as [b|public_key|b|a b|a|a i|a t|a ks|a b]; cbn [step].
  - unfold post_accounts_register.
    repeat (case_match || case_decide); done.
  - unfold post_accounts_challenge. repeat case_match; done.
  - unfold post_accounts_verify. repeat case_match; done.
  - unfold post_messages_send, insert_message.
    repeat (case_match || case_decide); simplify_eq; done.
  - done.
  - unfold delete_messages_id. repeat case_match; done.
  - unfold get_keys_account_id. repeat case_match; done.
  - unfold put_keys_prekeys. repeat (case_match || case_decide); done.
  - unfold put_keys_signed. repeat (case_match || case_decide); done.
Qed.

(** X21. No route handler writes to Redis or to the relay's connections:
    after any sequence of requests both are as they were, so a server
    started with an empty Redis never holds a challenge. *)
Theorem redis_is_never_written (trace : list (env * request)) (s : state) :
  redis (server_run trace s) = redis s ∧
  connections (server_run trace s) = connections s ∧
  redis (server_run trace empty_state) = ∅.
Proof.
  assert (∀ tr s0, redis (server_run tr s0) = redis s0 ∧
                   connections (server_run tr s0) = connections s0) as Hrun.
  { induction tr as [|[e r] tr IH]; intros s0; [done|].
    cbn [run]. destruct (IH (server_step e r s0).2) as [-> ->].
    split; [|apply step_connections].
    apply (step_redis crypto_sign_verify_detached jwt_sign
             PREKEY_REFILL_THRESHOLD). }
  split; [apply Hrun|]. split; [apply Hrun|].
  by destruct (Hrun trace empty_state) as [-> _].
Qed.

(** ** Delete then drain *)

Lemma filter_ext_elem {A} (P Q : A → Prop) `{∀ x, Decision (P x)}
    `{∀ x, Decision (Q x)} (l : list A) :
  (∀ x, x ∈ l → P x ↔ Q x) → filter P l = filter Q l.
Proof.
  induction l as [|a l IH]; [done|]. intros Hext.
  assert (filter P l = filter Q l) as Hl.
  { apply IH. intros x Hx. apply Hext. by right. }
  destruct (decide (P a)) as [Ha|Ha].
  - rewrite !filter_cons_True; [by rewrite Hl|by apply Hext; [left|]|done].
  - rewrite !filter_cons_False; [done| |done].
    intros Hq. apply Ha. apply Hext; [left|done].
Qed.

(** X20. A deleted message is gone from every drain. In a state that
    keeps the table constraints, after a delete answered 200 no drain, of
    any account, lists the deleted identifier, and every other queued row
    is still listed or left out exactly as the queue order decides: the
    queue has lost that one row only. *)
Theorem delete_then_drain (account_id id : uuid) (s : state) :
  db_ok (pg s) →
  status (delete_messages_id account_id id s).1 = 200 →
  let s' := (delete_messages_id account_id id s).2 in
  (∀ a, id ∉ drained_ids (get_messages_receive a s').1) ∧
  (∀ r, r ∈ message_queue (pg s') ↔ r ∈ message_queue (pg s) ∧ mq_id r ≠ id) ∧
  (length (message_queue (pg s)) = S (length (message_queue (pg s'))))%nat.
Proof.
  intros Hok H200.
  pose proof Hok as (_ & _ & _ & _ & _ & _ & _ & _ & K9 & _).
  unfold delete_messages_id, delete_message in *.
  destruct (filter (λ r, mq_id r = id ∧ mq_recipient_id r = account_id)
              (message_queue (pg s))) as [|r0 rows] eqn:Hsel; [done|].
  assert (r0 ∈ filter (λ r, mq_id r = id ∧ mq_recipient_id r = account_id)
            (message_queue (pg s))) as Hr0 by (rewrite Hsel; left).
  apply list_elem_of_filter in Hr0 as [[Hid Hrec] Hr0].
  assert (∀ r, r ∈ message_queue (pg s) → mq_id r = id → r = r0) as Huniq.
  { intros r Hr Hrid.
    apply (NoDup_fmap_eq mq_id (message_queue (pg s))); try done.
    congruence. }
  cbn zeta. cbn [fst snd pg with_pg message_queue set_message_queue].
  assert (∀ r, r ∈ filter
                     (λ r, ¬ (mq_id r = id ∧ mq_recipient_id r = account_id))
                     (message_queue (pg s)) ↔
               r ∈ message_queue (pg s) ∧ mq_id r ≠ id) as Hrows.
  { intros r. rewrite list_elem_of_filter. split.
    - intros [Hnot Hr]. split; [done|]. intros Hrid.
      apply Hnot. split; [done|]. by rewrite (Huniq r Hr Hrid).
    - intros [Hr Hne]. split; [|done]. by intros [? _]. }
  split_and!; [|exact Hrows|].
  - intros a Hin. unfold get_messages_receive, drained_ids in Hin.
    cbn [fst json reply pg with_pg] in Hin.
    apply list_elem_of_fmap in Hin as (m & Hm_id & Hm).
    apply list_elem_of_fmap in Hm as (r & -> & Hr).
    apply order_by_limit_elem_of in Hr.
    cbn [message_queue set_message_queue] in Hr.
    apply list_elem_of_filter in Hr as [_ Hr].
    apply Hrows in Hr as [_ Hne]. by apply Hne.
  - assert (filter (λ r, ¬ (mq_id r = id ∧ mq_recipient_id r = account_id))
              (message_queue (pg s))
            = filter (λ r, mq_id r ≠ id) (message_queue (pg s))) as ->.
    { apply filter_ext_elem. intros r Hr. split.
      - intros Hnot Hrid. apply Hnot. split; [done|].
        by rewrite (Huniq r Hr Hrid).
      - by intros Hne [Hrid _]. }
    clear Hrows Hsel Huniq H200 Hrec.
    revert Hr0 K9. generalize (message_queue (pg s)) as l.
    induction l as [|x l IH]; [by intros ?%not_elem_of_nil|].
    rewrite fmap_cons. intros Hin [Hx Hl]%NoDup_cons.
    destruct (decide (mq_id x = id)) as [Heq|Hne].
    + rewrite filter_cons_False by (by intros []).
      rewrite filter_all; [done|]. intros y Hy Hyid. apply Hx.
      apply list_elem_of_fmap. exists y. split; [congruence|done].
    + rewrite filter_cons_True by done. cbn [length]. f_equal.
      apply IH; [|done]. apply elem_of_cons in Hin as [->|?]; [|done].
      by destruct Hne.
Qed.

End Further.

(** * The further properties on the sample data *)

(** X5 on an example: Alice sends Bob the ciphertext [aa]; Bob's drain is
    that one message, and Alice's drain stays empty. *)
Lemma send_then_drain_witness :
  let s' := (post_messages_send alice (env_at 3000 7 [])
               (send_request bob "aa") two_accounts).2 in
  drained (get_messages_receive bob s').1
    = [ {| msg_id := 7; msg_ciphertext := "aa"; msg_message_type := 1 |} ] ∧
  (get_messages_receive alice s').1
    = (get_messages_receive alice two_accounts).1.
Proof.
  destruct (send_then_drain alice (env_at 3000 7 []) (send_request bob "aa")
              two_accounts bob "aa" eq_refl eq_refl eq_refl)
    as (_ & Honly & _ & Hother).
  split.
  - apply Honly. reflexivity.
  - apply Hother. discriminate.
Defined.

(** X6 on an example: Bob deletes the message Alice sent him; the stores
    are back to where they were. *)
Lemma send_then_delete_witness :
  delete_messages_id bob 7
    (post_messages_send alice (env_at 3000 7 [])
       (send_request bob "aa") two_accounts).2
  = (reply 200 deleted_body, two_accounts).
Proof.
  exact (proj1 (send_then_delete alice (env_at 3000 7 [])
                  (send_request bob "aa") two_accounts bob
                  eq_refl eq_refl)).
Defined.

(** X9 on an example: Alice registers a second time. *)
Lemma register_twice_conflicts_witness :
  post_accounts_register sample_sign (env_at 3000 carol [])
    (register_request alice_key) two_accounts
  = (reply 409 (error "key_already_registered"), two_accounts).
Proof.
  destruct (register_twice_conflicts sample_sign (env_at 3000 carol [])
              (register_request alice_key) alice_key two_accounts eq_refl)
    as (Hstate & _ & Hres).
  - unfold account_exists. compute_done.
  - rewrite <- Hstate at 2. rewrite <- (Hres 42 _ _ eq_refl eq_refl eq_refl).
    + by destruct (post_accounts_register _ _ _ _).
    + discriminate.
    + unfold in_int4. lia.
    + reflexivity.
    + vm_compute. reflexivity.
Defined.

(** X10 on an example: Bob fetches Alice's bundle and gets key id 1, the
    first of her pool, and her pool is left with key id 2; had a fetch in
    flight held row 1 locked, he would have got key id 2. *)
Lemma fetch_in_upload_order_witness :
  returned_prekey (get_keys_account_id None ∅ alice two_accounts).1
    = Some {| pk_key_id := 1; pk_public_key := prekey_a |} ∧
  pool alice (pg (get_keys_account_id None ∅ alice two_accounts).2)
    = tail (pool alice (pg two_accounts)) ∧
  pool bob (pg (get_keys_account_id None ∅ alice two_accounts).2)
    = pool bob (pg two_accounts) ∧
  returned_prekey (get_keys_account_id None {[1]} alice two_accounts).1
    = Some {| pk_key_id := 2; pk_public_key := prekey_b |}.
Proof.
  destruct (fetch_in_upload_order None ∅ alice two_accounts)
    as (_ & _ & _ & Hother & _ & Hfree).
  - apply (reachable_ok sample_sign sample_jwt None).
  - compute_done.
  - compute_done.
  - destruct Hfree as [Hret Hpool];
      [intros r _; apply not_elem_of_empty|].
    split; [exact Hret|]. split; [exact Hpool|].
    split; [apply Hother; discriminate|].
    destruct (fetch_in_upload_order None {[1]} alice two_accounts)
      as (_ & Hret1 & _).
    + apply (reachable_ok sample_sign sample_jwt None).
    + compute_done.
    + compute_done.
    + exact Hret1.
Defined.

(** X13 on an example: Alice rotates her signed prekey to key id 7, and
    the next fetch of her bundle carries it. *)
Lemma rotate_then_fetch_witness :
  returned_signed_prekey
    (get_keys_account_id None ∅ alice
       (put_keys_signed sample_sign alice (env_at 3000 0 []) rotate_request
          two_accounts).2).1
  = Some ({| pk_key_id := 7; pk_public_key := prekey_b |},
          alice_key +:+ prekey_b).
Proof.
  exact (proj1 (rotate_then_fetch sample_sign None alice (env_at 3000 0 [])
                  rotate_request two_accounts 7 prekey_b
                  (alice_key +:+ prekey_b) ∅
                  eq_refl eq_refl eq_refl eq_refl)).
Defined.

(** X15 on an example: the message Alice sends Bob at instant 3000 is
    still drained after a cleanup 30 days later, and no longer after a
    cleanup one millisecond after that. *)
Lemma sent_message_kept_for_ttl_witness :
  let s1 := (post_messages_send alice (env_at 3000 7 [])
               (send_request bob "aa") two_accounts).2 in
  let cleaned T := with_pg s1 (cleanup_expired_data T (pg s1) []).1 in
  7 ∈ drained_ids (get_messages_receive bob (cleaned 2592003000)).1 ∧
  7 ∉ drained_ids (get_messages_receive bob (cleaned 2592003001)).1.
Proof.
  split.
  - apply (proj1 (sent_message_kept_for_ttl alice (env_at 3000 7 [])
                    (send_request bob "aa") two_accounts bob 2592003000 []
                    eq_refl eq_refl)).
    + cbn. lia.
    + compute_done.
  - apply (proj2 (sent_message_kept_for_ttl alice (env_at 3000 7 [])
                    (send_request bob "aa") two_accounts bob 2592003001 []
                    eq_refl eq_refl)).
    cbn. lia.
Defined.

(** X17 on an example: Alice uploads key ids 5, 2147483648 and 6; the
    answer is 500, key id 5 is stored and key id 6 is not. *)
Lemma replenish_stops_at_bad_key_witness :
  let keys := [ {| opb_key_id := 5; opb_public_key := prekey_b |};
                out_of_range_key;
                {| opb_key_id := 6; opb_public_key := prekey_b |} ] in
  (put_keys_prekeys alice (Some keys) two_accounts).1
    = reply 500 (error "internal_error") ∧
  (alice, 5) ∈ otpk_pair <$>
    one_time_prekeys (pg (put_keys_prekeys alice (Some keys) two_accounts).2).
Proof.
  destruct (replenish_stops_at_bad_key alice
              [ {| opb_key_id := 5; opb_public_key := prekey_b |} ]
              [ {| opb_key_id := 6; opb_public_key := prekey_b |} ]
              out_of_range_key two_accounts)
    as (Hres & _ & Hstored).
  - compute_done.
  - repeat constructor; cbn; lia.
  - unfold in_int4. cbn. lia.
  - cbn. lia.
  - split; [exact Hres|].
    apply (Hstored {| opb_key_id := 5; opb_public_key := prekey_b |}). left.
Defined.

(** X18 on an example: Carol registers after Alice and Bob, and her
    bundle is fetched. *)
Lemma register_then_fetch_witness :
  let registered :=
    post_accounts_register sample_sign (env_at 3000 carol [])
      (register_request carol_key) two_accounts in
  registered.1 = reply 201 (account_id_body carol) ∧
  (get_keys_account_id None ∅ carol registered.2).1 =
    reply 200
      (bundle_body
         {| bundle_registration_id := 42;
            bundle_identity_key := carol_key;
            bundle_signed_prekey :=
              ({| pk_key_id := 1; pk_public_key := prekey_a |},
               carol_key +:+ prekey_a);
            bundle_one_time_prekey :=
              Some {| pk_key_id := 1; pk_public_key := prekey_a |} |}
         1 true).
Proof.
  refine (register_then_fetch sample_sign None (env_at 3000 carol [])
            (register_request carol_key) two_accounts carol_key 42 _ _ ∅
            _ eq_refl eq_refl eq_refl eq_refl eq_refl _).
  - apply (reachable_ok sample_sign sample_jwt None).
  - intros r _. apply not_elem_of_empty.
Defined.

(** X20 on an example: Bob deletes the message Alice sent him; his next
    drain does not list it. *)
Lemma delete_then_drain_witness :
  7 ∉ drained_ids
        (get_messages_receive bob (delete_messages_id bob 7 one_message).2).1.
Proof.
  refine (proj1 (delete_then_drain bob 7 one_message _ eq_refl) bob).
  apply (reachable_ok sample_sign sample_jwt None).
Defined.
